(** * swingmusic: the artist aggregation cache, the album classifier and
      the ingestion lookups

    A shallow embedding of [app/api/artist.py] and of
    [server/app/lib/albumslib.py].  Python values are modelled by value:
    [str] as [string], [int] as [Z], [len] as [nat], [list] as [list],
    [set] as [gset], objects as records.  An exception is a [Raise] in the
    [result] monad; a [while] loop carries fuel and is proved to need no
    more than it gets. *)

From Stdlib Require Import ZArith Lia.
From Stdlib Require Import Strings.String Strings.Ascii.
From stdpp Require Import base decidable option list sorting gmap strings.
From stdpp Require Import pretty.

Set Default Proof Using "Type".

(* ================================================================== *)
(** * Part I. Definitions                                              *)
(* ================================================================== *)

(** ** Python preliminaries *)

(** The exceptions the modelled code can raise. *)
Inductive exn : Set :=
| IndexError      (* [xs[i]] out of range *)
| ValueError      (* [int("x")], [list.remove] of an absent element *)
| AttributeError. (* attribute read on an object that lacks it *)

Inductive result (A : Type) : Type :=
| Ok (a : A)
| Raise (e : exn).
Arguments Ok {A} a.
Arguments Raise {A} e.

Global Instance result_ret : MRet result := @Ok.
Global Instance result_bind : MBind result := λ A B f m,
  match m with
  | Ok a => f a
  | Raise e => Raise e
  end.
Global Instance result_fmap : FMap result := λ A B f m,
  match m with
  | Ok a => Ok (f a)
  | Raise e => Raise e
  end.

Definition raises {A} (m : result A) : Prop :=
  match m with
  | Ok _ => False
  | Raise _ => True
  end.

Module Py.

(** [needle in hay] on [str]: [needle] occurs as a contiguous run. *)
Fixpoint str_in (needle hay : string) : bool :=
  String.prefix needle hay ||
  match hay with
  | EmptyString => false
  | String _ hay' => str_in needle hay'
  end.

(** [sep.join(xs)]. *)
Definition join (sep : string) (xs : list string) : string :=
  String.concat sep xs.

(** [xs[i]] for an [int] index: a negative index counts from the end,
    an index out of range raises. *)
Definition item {A} (xs : list A) (i : Z) : result A :=
  let j := (if i <? 0 then Z.of_nat (length xs) + i else i)%Z in
  if (j <? 0)%Z then Raise IndexError
  else match xs !! Z.to_nat j with
       | Some x => Ok x
       | None => Raise IndexError
       end.

(** [xs[:n]] for an [int] bound: a negative bound drops from the end. *)
Definition slice_to {A} (xs : list A) (n : Z) : list A :=
  if (n <? 0)%Z then take (Z.to_nat (Z.of_nat (length xs) + n)) xs
  else take (Z.to_nat n) xs.

(** [xs.remove(x)]: drops the first element equal to [x]. *)
Fixpoint remove `{EqDecision A} (x : A) (xs : list A) : result (list A) :=
  match xs with
  | [] => Raise ValueError
  | y :: ys => if decide (y = x) then Ok ys else (y ::.) <$> remove x ys
  end.

(** [deque(maxlen=m).append(x)]: a full deque drops its leftmost item. *)
Definition deque_append {A} (maxlen : nat) (d : list A) (x : A) : list A :=
  match maxlen with
  | O => d
  | S _ => (if length d <? maxlen then d else drop 1 d) ++ [x]
  end.

(** [xs.sort(key=key)] with [str] keys: Python's sort is stable, so its
    result is the one of stable insertion. *)
Section Sort.
Context {A : Type} (key : A → string).

Fixpoint insert_by (x : A) (xs : list A) : list A :=
  match xs with
  | [] => [x]
  | y :: ys =>
      if String.leb (key x) (key y) then x :: y :: ys
      else y :: insert_by x ys
  end.

Definition sort_by (xs : list A) : list A := foldr insert_by [] xs.
End Sort.

End Py.

(** ** The models of [app.models] *)

Module Album.
(** Modelled from the spec: [app.models.Album], whose definition is
    missing.  An album carries its identity, its title, the identities
    credited as primary album artists, a release date and the three flags
    the analysis pass sets. *)
Record t : Type := mk {
  albumhash : string;
  title : string;
  albumartists_hashes : list string;
  date : Z;
  is_single : bool;
  is_EP : bool;
  is_compilation : bool;
}.

Global Instance eq_dec : EqDecision t.
Proof. solve_decision. Defined.
End Album.

Module Track.
(** Modelled from the spec: [app.models.Track], whose definition is
    missing. *)
Record t : Type := mk {
  trackhash : string;
  albumhash : string;
  artist_hashes : list string;
  title : string;
  duration : Z;
  date : Z;
}.

Global Instance eq_dec : EqDecision t.
Proof. solve_decision. Defined.
End Track.

Module Artist.
(** Modelled from the spec: [app.models.Artist], whose definition is
    missing, with the counters its setters fill in per request. *)
Record t : Type := mk {
  artisthash : string;
  name : string;
  trackcount : Z;
  albumcount : Z;
  duration : Z;
  is_favorite : bool;
}.

Definition set_trackcount (n : Z) (a : t) : t :=
  mk (artisthash a) (name a) n (albumcount a) (duration a) (is_favorite a).
Definition set_albumcount (n : Z) (a : t) : t :=
  mk (artisthash a) (name a) (trackcount a) n (duration a) (is_favorite a).
Definition set_duration (n : Z) (a : t) : t :=
  mk (artisthash a) (name a) (trackcount a) (albumcount a) n (is_favorite a).
Definition set_is_favorite (b : bool) (a : t) : t :=
  mk (artisthash a) (name a) (trackcount a) (albumcount a) (duration a) b.
End Artist.

Inductive FavType : Set := FavArtist | FavAlbum | FavTrack.

(** ** The collaborators the routes import

    The stores, the favourites table, the duplicate filter, the per-album
    analysis and [int] are used through their interfaces only. *)

Module AlbumStore.
Class ops : Type := {
  get_album_by_hash : string → option Album.t;
  get_albums_by_artisthash : string → list Album.t;
  count_albums_by_artisthash : string → Z;
}.
End AlbumStore.

Module TrackStore.
Class ops : Type := {
  get_tracks_by_artist : string → list Track.t;
  get_tracks_by_albumhash : string → list Track.t;
}.
End TrackStore.

Module ArtistStore.
Class ops : Type := {
  get_artist_by_hash : string → option Artist.t;
}.
End ArtistStore.

Module Collab.
Class ops : Type := {
  (** [favdb.check_is_favorite] *)
  check_is_favorite : string → FavType → bool;
  (** [app.utils.remove_duplicates.remove_duplicates] *)
  remove_duplicates : list Track.t → list Track.t;
  (** [Album.check_type], [Album.get_date_from_tracks] and
      [Album.check_is_single]: each rewrites fields of the album. *)
  check_type : Album.t → Album.t;
  get_date_from_tracks : list Track.t → Album.t → Album.t;
  check_is_single : list Track.t → Album.t → Album.t;
  (** [int(s)] on the text of a query parameter *)
  int : string → result Z;
}.
End Collab.

(** ** [app/api/artist.py]: the cache *)

Module CacheEntry.
Record t : Type := mk {
  albums : list Album.t;
  tracks : list Track.t;
  artisthash : string;
  albumhashes : gset string;
  type_checked : bool;
  albums_fetched : bool;
}.

(** [CacheEntry.__init__] *)
Definition init (artisthash : string) (albumhashes : gset string)
    (tracks : list Track.t) : t :=
  {| albums := [];
     tracks := if 0 <? length tracks then tracks else [];
     artisthash := artisthash;
     albumhashes := albumhashes;
     type_checked := false;
     albums_fetched := false |}.

(** Attribute assignments on an entry. *)
Definition set_albums (v : list Album.t) (e : t) : t :=
  mk v (tracks e) (artisthash e) (albumhashes e) (type_checked e)
     (albums_fetched e).
Definition set_albums_fetched (v : bool) (e : t) : t :=
  mk (albums e) (tracks e) (artisthash e) (albumhashes e) (type_checked e) v.
Definition set_type_checked (v : bool) (e : t) : t :=
  mk (albums e) (tracks e) (artisthash e) (albumhashes e) v
     (albums_fetched e).
End CacheEntry.

Module ArtistsCache.
Import AlbumStore TrackStore Collab.

(** The class attribute [artists = deque(maxlen=1)], oldest entry
    first. *)
Definition maxlen : nat := 1.
Abbreviation deque := (list CacheEntry.t).
Definition initial : deque := [].

Definition is_for (artisthash : string) (e : CacheEntry.t) : bool :=
  String.eqb (CacheEntry.artisthash e) artisthash.

(** [[a for a in cls.artists if a.artisthash == artisthash][0]] *)
Definition entry_of (artisthash : string) (artists : deque)
    : result CacheEntry.t :=
  Py.item (filter (λ a, is_for artisthash a) artists) 0.

(** The entry that [entry_of] returns is an object of the deque: an
    assignment to one of its attributes shows in the deque. *)
Fixpoint assign (artisthash : string) (f : CacheEntry.t → CacheEntry.t)
    (artists : deque) : deque :=
  match artists with
  | [] => []
  | a :: rest =>
      if is_for artisthash a then f a :: rest
      else a :: assign artisthash f rest
  end.

Fixpoint get_albums_by_artisthash_from (index : Z) (artisthash : string)
    (artists : deque) : list Album.t * Z :=
  match artists with
  | [] => ([], -1)%Z
  | albums :: rest =>
      if is_for artisthash albums then (CacheEntry.albums albums, index)
      else get_albums_by_artisthash_from (index + 1) artisthash rest
  end.

Definition get_albums_by_artisthash (artisthash : string) (artists : deque)
    : list Album.t * Z :=
  get_albums_by_artisthash_from 0 artisthash artists.

Fixpoint albums_cached (artisthash : string) (artists : deque) : bool :=
  match artists with
  | [] => false
  | entry :: rest =>
      if is_for artisthash entry && (0 <? length (CacheEntry.albums entry))
      then true
      else albums_cached artisthash rest
  end.

(** Falls off the end of the loop, returning [None], when no entry
    matches. *)
Fixpoint albums_fetched (artisthash : string) (artists : deque)
    : option bool :=
  match artists with
  | [] => None
  | entry :: rest =>
      if is_for artisthash entry then Some (CacheEntry.albums_fetched entry)
      else albums_fetched artisthash rest
  end.

Fixpoint tracks_cached (artisthash : string) (artists : deque) : bool :=
  match artists with
  | [] => false
  | entry :: rest =>
      if is_for artisthash entry && (0 <? length (CacheEntry.tracks entry))
      then true
      else tracks_cached artisthash rest
  end.

Definition add_entry (artisthash : string) (albumhashes : gset string)
    (tracks : list Track.t) (artists : deque) : deque :=
  Py.deque_append maxlen artists
    (CacheEntry.init artisthash albumhashes tracks).

Definition get_tracks (artisthash : string) (artists : deque)
    : result (list Track.t) :=
  entry ← entry_of artisthash artists;
  Ok (CacheEntry.tracks entry).

Section WithStores.
Context `{!AlbumStore.ops, !TrackStore.ops, !Collab.ops}.

(** The albums resolved from the known identities (lines 111-112). *)
Definition resolved_albums (entry : CacheEntry.t) : list Album.t :=
  let albums :=
    (λ h, get_album_by_hash h) <$> elements (CacheEntry.albumhashes entry)
  in omap id albums.

(** The loop of lines 118-120; [all_albums_hash] is computed once,
    before the loop. *)
Definition merge_store_albums (all_albums_hash : string)
    (store_albums entry_albums : list Album.t) : list Album.t :=
  foldl (λ entry_albums album,
           if negb (Py.str_in (Album.albumhash album) all_albums_hash)
           then entry_albums ++ [album]
           else entry_albums)
        entry_albums store_albums.

Definition get_albums (artisthash : string) (artists : deque)
    : result deque :=
  entry ← entry_of artisthash artists;
  let entry_albums := resolved_albums entry in
  let store_albums := AlbumStore.get_albums_by_artisthash artisthash in
  let all_albums_hash :=
    Py.join "-" (Album.albumhash <$> entry_albums) in
  let entry_albums :=
    merge_store_albums all_albums_hash store_albums entry_albums in
  Ok (assign artisthash
        (λ e, CacheEntry.set_albums_fetched true
                (CacheEntry.set_albums entry_albums e))
        artists).

(** The body of the loop of [process_album_type] on one album. *)
Definition process_album (album : Album.t) : Album.t :=
  let album := check_type album in
  let album_tracks := get_tracks_by_albumhash (Album.albumhash album) in
  let album_tracks := remove_duplicates album_tracks in
  let album := get_date_from_tracks album_tracks album in
  check_is_single album_tracks album.

(** The analysis rewrites the album objects of [entry.albums] in
    place; by value, the list is mapped. *)
Definition process_album_type (artisthash : string) (artists : deque)
    : result deque :=
  entry ← entry_of artisthash artists;
  Ok (assign artisthash
        (λ e, CacheEntry.set_type_checked true
                (CacheEntry.set_albums
                   (process_album <$> CacheEntry.albums e) e))
        artists).
End WithStores.
End ArtistsCache.

(** ** [app/api/artist.py]: the routes *)

Module ArtistApi.
Import AlbumStore TrackStore ArtistStore Collab.

(** The query parameters a route reads with [request.args.get]. *)
Record Request : Type := mkRequest {
  arg_limit : option string;
  arg_all : option string;
}.

(** The five buckets of the artist-albums response. *)
Record Buckets : Type := mkBuckets {
  albums : list Album.t;
  singles : list Album.t;
  eps : list Album.t;
  appearances : list Album.t;
  compilations : list Album.t;
}.

Inductive ArtistResponse : Type :=
| ArtistFound (artist : Artist.t) (tracks : list Track.t)
| ArtistNotFound404.

Record AlbumsResponse : Type := mkAlbumsResponse {
  artistname : string;
  buckets : Buckets;
}.

(** ** The classifier (lines 235-254 of [get_artist_albums]) *)

Definition remove_EPs_and_singles (albums : list Album.t) : list Album.t :=
  let albums := filter (λ a, ¬ Album.is_EP a) albums in
  let albums := filter (λ a, ¬ Album.is_single a) albums in
  albums.

(** [for c in compilations: albums.remove(c)] *)
Fixpoint remove_each (compilations albums : list Album.t)
    : result (list Album.t) :=
  match compilations with
  | [] => Ok albums
  | c :: compilations =>
      albums ← Py.remove c albums;
      remove_each compilations albums
  end.

Definition classify (artisthash : string) (all_albums : list Album.t)
    : result Buckets :=
  let singles := filter (λ a, Album.is_single a) all_albums in
  let eps := filter (λ a, Album.is_EP a) all_albums in
  let albums :=
    filter (λ a, artisthash ∈ Album.albumartists_hashes a) all_albums in
  let albums := remove_EPs_and_singles albums in
  let compilations := filter (λ a, Album.is_compilation a) albums in
  albums ← remove_each compilations albums;
  let appearances :=
    filter (λ a, artisthash ∉ Album.albumartists_hashes a) all_albums in
  let appearances := remove_EPs_and_singles appearances in
  Ok (mkBuckets albums singles eps appearances compilations).

(** The slices of the returned dictionary (lines 263-267). *)
Definition slice_buckets (limit : Z) (b : Buckets) : Buckets :=
  {| albums := Py.slice_to (albums b) limit;
     singles := Py.slice_to (singles b) limit;
     eps := Py.slice_to (eps b) limit;
     appearances := Py.slice_to (appearances b) limit;
     compilations := Py.slice_to (compilations b) limit |}.

Section WithStores.
Context `{!AlbumStore.ops, !TrackStore.ops, !ArtistStore.ops, !Collab.ops}.

(** [limit = request.args.get("limit")], 6 when absent, then
    [int(limit)]. *)
Definition read_limit (req : Request) : result Z :=
  match arg_limit req with
  | None => Ok 6%Z
  | Some limit => int limit
  end.

Definition add_albums_to_cache (artisthash : string)
    (artists : ArtistsCache.deque) : bool * ArtistsCache.deque :=
  let tracks := get_tracks_by_artist artisthash in
  if length tracks =? 0 then (false, artists)
  else
    let albumhashes : gset string :=
      list_to_set (Track.albumhash <$> tracks) in
    (true, ArtistsCache.add_entry artisthash albumhashes [] artists).

(** [sum(t.duration for t in tracks)] *)
Definition total_duration (tracks : list Track.t) : Z :=
  foldl (λ acc t, acc + Track.duration t)%Z 0%Z tracks.

Definition get_artist (artisthash : string) (req : Request)
    (artists : ArtistsCache.deque)
    : result (ArtistResponse * ArtistsCache.deque) :=
  limit ← read_limit req;
  match get_artist_by_hash artisthash with
  | None => Ok (ArtistNotFound404, artists)
  | Some artist =>
      let tracks_cached := ArtistsCache.tracks_cached artisthash artists in
      '(tracks, artists) ←
        (if tracks_cached then
           tracks ← ArtistsCache.get_tracks artisthash artists;
           Ok (tracks, artists)
         else
           let tracks := get_tracks_by_artist artisthash in
           let albumhashes : gset string :=
             list_to_set (Track.albumhash <$> tracks) in
           let hashes_from_albums : gset string :=
             list_to_set
               (Album.albumhash
                  <$> AlbumStore.get_albums_by_artisthash artisthash) in
           let albumhashes := albumhashes ∪ hashes_from_albums in
           Ok (tracks,
               ArtistsCache.add_entry artisthash albumhashes tracks
                 artists));
      let tcount := Z.of_nat (length tracks) in
      let acount := count_albums_by_artisthash artisthash in
      let limit :=
        if (acount =? 0)%Z && (tcount <? 10)%Z then tcount else limit in
      let artist := Artist.set_trackcount tcount artist in
      let artist := Artist.set_albumcount acount artist in
      let artist := Artist.set_duration (total_duration tracks) artist in
      let artist :=
        Artist.set_is_favorite (check_is_favorite artisthash FavArtist)
          artist in
      Ok (ArtistFound artist (Py.slice_to tracks limit), artists)
  end.

(** Lines 220-228: bring the entry up to the albums-fetched stage. *)
Definition ensure_albums (artisthash : string)
    (artists : ArtistsCache.deque) : result ArtistsCache.deque :=
  let is_cached := ArtistsCache.albums_cached artisthash artists in
  let artists :=
    if negb is_cached then (add_albums_to_cache artisthash artists).2
    else artists in
  let albums_fetched := ArtistsCache.albums_fetched artisthash artists in
  if negb (default false albums_fetched)
  then ArtistsCache.get_albums artisthash artists
  else Ok artists.

(** Lines 230-268.  [all_albums] is the list object [entry.albums]:
    what [process_album_type] writes to its albums is seen through
    it, so it is read again from the deque after that call. *)
Definition respond_albums (artisthash : string) (limit : Z)
    (return_all : option string) (artists : ArtistsCache.deque)
    : result (AlbumsResponse * ArtistsCache.deque) :=
  let '(all_albums, index) :=
    ArtistsCache.get_albums_by_artisthash artisthash artists in
  indexed ← Py.item artists index;
  artists ←
    (if negb (CacheEntry.type_checked indexed)
     then ArtistsCache.process_album_type artisthash artists
     else Ok artists);
  let all_albums :=
    (ArtistsCache.get_albums_by_artisthash artisthash artists).1 in
  b ← classify artisthash all_albums;
  let artist := get_artist_by_hash artisthash in
  let limit :=
    if return_all is Some _ then Z.of_nat (length all_albums)
    else limit in
  artist_name ←
    (if artist is Some a then Ok (Artist.name a)
     else Raise AttributeError);
  Ok (mkAlbumsResponse artist_name (slice_buckets limit b), artists).

Definition get_artist_albums (artisthash : string) (req : Request)
    (artists : ArtistsCache.deque)
    : result (AlbumsResponse * ArtistsCache.deque) :=
  let return_all := arg_all req in
  limit ← read_limit req;
  artists ← ensure_albums artisthash artists;
  respond_albums artisthash limit return_all artists.

(** [get_all_artist_tracks] *)
Definition get_all_artist_tracks (artisthash : string) : list Track.t :=
  get_tracks_by_artist artisthash.
End WithStores.
End ArtistApi.

(** ** [server/app/lib/albumslib.py] *)

Module Helpers.
(** [helpers.create_album_hash], used through its interface only. *)
Class ops : Type := {
  create_album_hash : string → string → string;
}.
End Helpers.

(** An element of [api.ALBUMS].  [hash = None] stands for a malformed
    element: reading its [hash] attribute raises. *)
Module IndexedAlbum.
Record t : Type := mk {
  hash : option string;
  title : string;
  artist : string;
}.

Definition read_hash (a : t) : result string :=
  match hash a with
  | Some h => Ok h
  | None => Raise AttributeError
  end.
End IndexedAlbum.

(** An element of [api.DB_TRACKS]: a dictionary with these keys. *)
Module DbTrack.
Record t : Type := mk {
  albumhash : string;
  title : string;
  album : string;
  albumartist : string;
  date : string;
  filepath : string;
}.

Global Instance eq_dec : EqDecision t.
Proof. solve_decision. Defined.
End DbTrack.

Module TracksLib.
(** Modelled from the spec: [trackslib.find_track], whose definition is
    missing; it locates the first track of the pool whose album identity
    matches, or returns [None]. *)
Fixpoint find_track (tracks : list DbTrack.t) (hash : string) : option Z :=
  match tracks with
  | [] => None
  | t :: tracks =>
      if String.eqb (DbTrack.albumhash t) hash then Some 0%Z
      else Z.succ <$> find_track tracks hash
  end.
End TracksLib.

(** An element of [api.TRACKS]. *)
Module ServerTrack.
(** Modelled from the spec: [models.Track] of the server library, whose
    definition is missing; the library reads the title of a track and its
    length (the spec's duration). *)
Record t : Type := mk {
  title : string;
  length : Z;
}.
End ServerTrack.

(** The [random] module.  A call takes the state of the generator and
    leaves the next state. *)
Module Random.
Class ops : Type := {
  state : Type;
  (** [random.randint(a, b)] *)
  randint : Z → Z → state → Z * state;
  (** [random.choice(seq)] on a non-empty [str] *)
  choice : string → state → ascii * state;
}.

(** What the module promises of the two calls. *)
Definition randint_in_range `{!ops} : Prop :=
  ∀ a b s, (a ≤ b)%Z → (a ≤ (randint a b s).1 ≤ b)%Z.

Definition choice_in_seq `{!ops} : Prop :=
  ∀ seq s, seq ≠ EmptyString →
    ∃ i, String.get i seq = Some (choice seq s).1.
End Random.

Module TagLib.
(** [taglib.extract_thumb(filepath, webp_path=...)]: whether a thumbnail
    was found in the file and written to the path. *)
Class ops : Type := {
  extract_thumb : string → string → bool;
}.
End TagLib.

Module Builtins.
Class ops : Type := {
  (** [urllib.parse.quote_plus] *)
  quote_plus : string → string;
  (** [str.lower] *)
  lower : string → string;
}.
End Builtins.

(** [instances.album_instance] and [trackslib.create_all_tracks]. *)
Module Instances.
Class ops : Type := {
  (** a row of the albums collection *)
  db_album : Type;
  (** [instances.album_instance.get_all_albums()] *)
  get_all_albums : list db_album;
  (** [models.Album(row)] *)
  Album : db_album → IndexedAlbum.t;
  (** [trackslib.create_all_tracks()] *)
  create_all_tracks : list ServerTrack.t;
}.
End Instances.

Module AlbumsLib.
Import Helpers.

Section WithHelpers.
Context `{!Helpers.ops}.

(** The outcome of a lookup: what [print] wrote, and the value
    returned or the exception that left the function. *)
Definition lookup : Type := list IndexedAlbum.t * result (option Z).

(** [api.ALBUMS[mid].hash] *)
Definition hash_at (ALBUMS : list IndexedAlbum.t) (mid : Z)
    : result string :=
  a ← Py.item ALBUMS mid;
  IndexedAlbum.read_hash a.

(** The [while] loop of [find_album]; [None] when the fuel runs out.
    The comparison of line 72 is inside [try], with a bare [except]
    that prints the element; the comparison of line 77 is not. *)
Fixpoint find_album_loop (fuel : nat) (ALBUMS : list IndexedAlbum.t)
    (albumtitle artist : string) (left right : Z)
    (printed : list IndexedAlbum.t) : option lookup :=
  if (left <=? right)%Z then
    match fuel with
    | O => None
    | S fuel =>
        let mid := ((left + right) `div` 2)%Z in
        let hash := create_album_hash albumtitle artist in
        let narrow printed :=
          match hash_at ALBUMS mid with
          | Raise e => Some (printed, Raise e)
          | Ok h =>
              if String.ltb h hash
              then find_album_loop fuel ALBUMS albumtitle artist
                     (mid + 1)%Z right printed
              else find_album_loop fuel ALBUMS albumtitle artist
                     left (mid - 1)%Z printed
          end in
        match hash_at ALBUMS mid with
        | Ok h =>
            if String.eqb h hash then Some (printed, Ok (Some mid))
            else narrow printed
        | Raise _ =>
            match Py.item ALBUMS mid with
            | Ok a => narrow (printed ++ [a])
            | Raise e => Some (printed, Raise e)
            end
        end
    end
  else Some (printed, Ok None).

Definition find_album (ALBUMS : list IndexedAlbum.t)
    (albumtitle artist : string) : option lookup :=
  let left := 0%Z in
  let right := (Z.of_nat (length ALBUMS) - 1)%Z in
  find_album_loop (length ALBUMS) ALBUMS albumtitle artist left right [].

(** ** [GetAlbumTracks]

    [self.tracks] is the list object [api.DB_TRACKS] itself: the sort,
    the removals and the final [extend] all act on that one list. *)

(** [GetAlbumTracks.__init__]: the hash, and [api.DB_TRACKS] sorted. *)
Definition GetAlbumTracks_init (album artist : string)
    (DB_TRACKS : list DbTrack.t) : string * list DbTrack.t :=
  (create_album_hash album artist,
   Py.sort_by DbTrack.albumhash DB_TRACKS).

(** The [while] loop of [find_tracks]; [None] when the fuel runs
    out. *)
Fixpoint find_tracks_loop (fuel : nat) (hash : string)
    (self_tracks tracks : list DbTrack.t)
    : option (result (list DbTrack.t * list DbTrack.t)) :=
  match TracksLib.find_track self_tracks hash with
  | None => Some (Ok (tracks, self_tracks))
  | Some index =>
      match fuel with
      | O => None
      | S fuel =>
          match Py.item self_tracks index with
          | Raise e => Some (Raise e)
          | Ok track =>
              let tracks := tracks ++ [track] in
              match Py.remove track self_tracks with
              | Raise e => Some (Raise e)
              | Ok self_tracks =>
                  find_tracks_loop fuel hash self_tracks tracks
              end
          end
      end
  end.

(** Returns the tracks found and the final [api.DB_TRACKS]. *)
Definition find_tracks (hash : string) (DB_TRACKS : list DbTrack.t)
    : option (result (list DbTrack.t * list DbTrack.t)) :=
  match find_tracks_loop (length DB_TRACKS) hash DB_TRACKS [] with
  | None => None
  | Some (Raise e) => Some (Raise e)
  | Some (Ok (tracks, DB_TRACKS)) =>
      let DB_TRACKS := DB_TRACKS ++ tracks in
      Some (Ok (tracks, DB_TRACKS))
  end.

Definition get_album_tracks (album artist : string)
    (DB_TRACKS : list DbTrack.t)
    : option (result (list DbTrack.t * list DbTrack.t)) :=
  let '(hash, DB_TRACKS) := GetAlbumTracks_init album artist DB_TRACKS in
  find_tracks hash DB_TRACKS.
End WithHelpers.

Section WithLibraries.
Context `{!Helpers.ops, !Random.ops, !TagLib.ops, !Builtins.ops,
          !Instances.ops}.

(** What the library writes to the console. *)
Inductive console : Type :=
| Print (line : string)
| BarStart (message : string) (max : nat)
| BarNext
| BarFinish.

(** [get_all_albums]: the albums, and the console output. *)
Definition get_all_albums : list IndexedAlbum.t * list console :=
  let db_albums := Instances.get_all_albums in
  let out := [Print "Getting all albums..."] in
  let out := out ++ [BarStart "Creating albums" (length db_albums)] in
  let '(albums, out) :=
    foldl (λ '(albums, out) album,
             let aa := Instances.Album album in
             (albums ++ [aa], out ++ [BarNext]))
          ([], out) db_albums in
  (albums, out ++ [BarFinish]).

(** [xs.sort(key=lambda x: x.hash)]: the keys are read first, and a key
    that cannot be read ends the sort with its exception. *)
Definition sort_by_hash (albums : list IndexedAlbum.t)
    : result (list IndexedAlbum.t) :=
  _ ← mapM IndexedAlbum.read_hash albums;
  Ok (Py.sort_by (λ x, default EmptyString (IndexedAlbum.hash x)) albums).

(** The module attributes [api.ALBUMS] and [api.TRACKS]. *)
Record Api : Type := mkApi {
  ALBUMS : list IndexedAlbum.t;
  TRACKS : list ServerTrack.t;
}.

(** [create_everything]: the new attributes and the console output.
    [api.TRACKS] is cleared before it is filled again. *)
Definition create_everything (api : Api) : result (Api * list console) :=
  let '(albums, out) := get_all_albums in
  ALBUMS ← sort_by_hash albums;
  let tracks := Instances.create_all_tracks in
  let TRACKS := [] in
  let TRACKS := TRACKS ++ tracks in
  let TRACKS := Py.sort_by ServerTrack.title TRACKS in
  Ok (mkApi ALBUMS TRACKS, out).

Definition get_album_duration (album : list ServerTrack.t) : Z :=
  foldl (λ album_duration track,
           (album_duration + ServerTrack.length track)%Z)
        0%Z album.

Definition use_defaults (s : Random.state) : string * Random.state :=
  let '(n, s) := Random.randint 0 20 s in
  let path := "defaults/" +:+ pretty n +:+ ".webp" in
  (path, s).

Definition choices : string := "abcdefghijklmnopqrstuvwxyz0123456789".

(** [random.choice(choices) for i in range(n)], joined. *)
Fixpoint random_chars (n : nat) (s : Random.state)
    : string * Random.state :=
  match n with
  | O => (EmptyString, s)
  | S n =>
      let '(c, s) := Random.choice choices s in
      let '(rest, s) := random_chars n s in
      (String c rest, s)
  end.

Definition gen_random_path (s : Random.state) : string * Random.state :=
  let '(path, s) := random_chars 20 s in
  let path := path +:+ ".webp" in
  (path, s).

(** The generator, and the calls made to [taglib.extract_thumb] so far,
    each with its file path and its image path. *)
Record World : Type := mkWorld {
  rng : Random.state;
  extracted : list (string * string);
}.

Fixpoint get_album_image (album : list DbTrack.t) (w : World)
    : string * World :=
  match album with
  | [] =>
      let '(path, s) := use_defaults (rng w) in
      (path, mkWorld s (extracted w))
  | track :: album =>
      let '(img_p, s) := gen_random_path (rng w) in
      let exists_ := TagLib.extract_thumb (DbTrack.filepath track) img_p in
      let w := mkWorld s (extracted w ++ [(DbTrack.filepath track, img_p)]) in
      if exists_ then (img_p, w) else get_album_image album w
  end.

(** The dictionary [create_album] builds. *)
Record AlbumDict : Type := mkAlbumDict {
  dict_title : string;
  dict_artist : string;
  dict_date : string;
  dict_artistimage : string;
  dict_image : string;
}.

(** [create_album]: the dictionary, the final [api.DB_TRACKS] and the
    final world; [None] when the loop of [find_tracks] runs out of
    fuel. *)
Definition create_album (track : DbTrack.t) (DB_TRACKS : list DbTrack.t)
    (w : World)
    : option (result (AlbumDict * list DbTrack.t * World)) :=
  let title := DbTrack.album track in
  let artist := DbTrack.albumartist track in
  match get_album_tracks title artist DB_TRACKS with
  | None => None
  | Some (Raise e) => Some (Raise e)
  | Some (Ok (album_tracks, DB_TRACKS)) =>
      Some (first ← Py.item album_tracks 0;
            let date := DbTrack.date first in
            first ← Py.item album_tracks 0;
            let artistimage :=
              Builtins.quote_plus (DbTrack.albumartist first +:+ ".webp") in
            let '(image, w) := get_album_image album_tracks w in
            Ok (mkAlbumDict title artist date artistimage image,
                DB_TRACKS, w))
  end.

(** [search_albums_by_name]: the two loops over [api.ALBUMS]. *)
Definition search_albums_by_name (ALBUMS : list IndexedAlbum.t)
    (query : string) : list IndexedAlbum.t :=
  let title_albums :=
    foldl (λ title_albums album,
             if Py.str_in (Builtins.lower query)
                  (Builtins.lower (IndexedAlbum.title album))
             then title_albums ++ [album] else title_albums)
          [] ALBUMS in
  let artist_albums :=
    foldl (λ artist_albums album,
             if Py.str_in (Builtins.lower query)
                  (Builtins.lower (IndexedAlbum.artist album))
             then artist_albums ++ [album] else artist_albums)
          [] ALBUMS in
  title_albums ++ artist_albums.
End WithLibraries.
End AlbumsLib.

(* ================================================================== *)
(** * Part II. The properties, in the words of the specification      *)
(* ================================================================== *)

Module Reference.
Import ArtistsCache ArtistApi.

(** A sequence of [ArtistsCache.add_entry] calls, by their arguments. *)
Definition AddCall : Type := string * gset string * list Track.t.

Definition entry_of_call (c : AddCall) : CacheEntry.t :=
  CacheEntry.init c.1.1 c.1.2 c.2.

Definition run_adds (calls : list AddCall) (artists : deque) : deque :=
  foldl (λ artists c, add_entry c.1.1 c.1.2 c.2 artists) artists calls.

(** The merge rule as an exact membership test over identities: an
    album of the second query is appended exactly when its identity is
    that of no resolved album. *)
Definition merged_by_membership (resolved store_albums : list Album.t)
    : list Album.t :=
  resolved ++
  filter (λ a, Album.albumhash a ∉ Album.albumhash <$> resolved)
         store_albums.

(** What the code tests instead: occurrence in the joined text. *)
Definition merged_by_substring (resolved store_albums : list Album.t)
    : list Album.t :=
  resolved ++
  filter (λ a, ¬ Py.str_in (Album.albumhash a)
                   (Py.join "-" (Album.albumhash <$> resolved)))
         store_albums.

(** [get_albums] leaves in the entry the merge [merge] of its resolved
    albums and of the store's albums by artist. *)
Definition get_albums_merges `{!AlbumStore.ops}
    (merge : list Album.t → list Album.t → list Album.t)
    (artisthash : string) (artists : deque) : Prop :=
  ∀ entry, entry_of artisthash artists = Ok entry →
    ∃ artists' entry',
      get_albums artisthash artists = Ok artists' ∧
      entry_of artisthash artists' = Ok entry' ∧
      CacheEntry.albums entry' =
        merge (resolved_albums entry)
              (AlbumStore.get_albums_by_artisthash artisthash).

(** An identity of [n] characters, none of them the separator. *)
Definition plain_hash (n : nat) (h : string) : Prop :=
  String.length h = n ∧ Py.str_in "-" h = false.

(** The five buckets of section 4.5. *)
Definition classify_spec (artisthash : string) (all_albums : list Album.t)
    : Buckets :=
  let primary a := artisthash ∈ Album.albumartists_hashes a in
  {| singles := filter (λ a, Album.is_single a) all_albums;
     eps := filter (λ a, Album.is_EP a) all_albums;
     albums :=
       filter (λ a, primary a ∧ ¬ Album.is_EP a ∧ ¬ Album.is_single a
                    ∧ ¬ Album.is_compilation a) all_albums;
     compilations :=
       filter (λ a, primary a ∧ ¬ Album.is_EP a ∧ ¬ Album.is_single a
                    ∧ Album.is_compilation a) all_albums;
     appearances :=
       filter (λ a, ¬ primary a ∧ ¬ Album.is_EP a ∧ ¬ Album.is_single a)
              all_albums |}.

Definition disjoint (xs ys : list Album.t) : Prop :=
  ∀ a, a ∈ xs → a ∈ ys → False.

Definition is_single_or_EP (a : Album.t) : Prop :=
  Album.is_single a ∨ Album.is_EP a.

(** No entry of the deque is for this artist. *)
Definition no_entry (artisthash : string) (artists : deque) : Prop :=
  Forall (λ e, CacheEntry.artisthash e ≠ artisthash) artists.

(** The buckets of a response keep out of each other's way, except
    that [singles] and [eps] share the albums flagged both. *)
Definition exclusive_up_to_double_flags (r : Buckets) : Prop :=
  disjoint (albums r) (compilations r) ∧
  disjoint (albums r) (singles r) ∧
  disjoint (albums r) (eps r) ∧
  disjoint (compilations r) (singles r) ∧
  disjoint (compilations r) (eps r) ∧
  (∀ a, a ∈ singles r → a ∈ eps r → Album.is_single a ∧ Album.is_EP a) ∧
  (∀ a, is_single_or_EP a →
     (a ∉ albums r) ∧ (a ∉ compilations r) ∧ (a ∉ appearances r)).

(** C3 as stated: the four buckets pairwise disjoint. *)
Definition pairwise_disjoint (r : Buckets) : Prop :=
  disjoint (albums r) (compilations r) ∧
  disjoint (albums r) (singles r) ∧
  disjoint (albums r) (eps r) ∧
  disjoint (compilations r) (singles r) ∧
  disjoint (compilations r) (eps r) ∧
  disjoint (singles r) (eps r).

(** The track list [get_artist] works with: the cached one when the
    cache has tracks for the artist, the store's otherwise. *)
Definition served_tracks `{!TrackStore.ops} (artisthash : string)
    (artists : deque) : list Track.t :=
  if tracks_cached artisthash artists then
    match entry_of artisthash artists with
    | Ok entry => CacheEntry.tracks entry
    | Raise _ => []
    end
  else TrackStore.get_tracks_by_artist artisthash.

Definition empty_buckets : Buckets := mkBuckets [] [] [] [] [].

(** A cache as the routes fill it: at most one entry, whose tracks, when
    it has any, are the store's tracks of its artist. *)
Definition coherent `{!TrackStore.ops} (artists : deque) : Prop :=
  length artists ≤ 1 ∧
  Forall (λ e, CacheEntry.tracks e = [] ∨
               CacheEntry.tracks e =
                 TrackStore.get_tracks_by_artist (CacheEntry.artisthash e))
         artists.

(** The pool holds no track of the album. *)
Definition pool_free_of (hash : string) (pool : list DbTrack.t) : Prop :=
  Forall (λ t, DbTrack.albumhash t ≠ hash) pool.
End Reference.

(** ** Further notions, read off the code *)

Module Laws.
Import ArtistsCache ArtistApi.

(** [api.ALBUMS] has readable hashes, in non-decreasing order. *)
Definition hash_sorted (ALBUMS : list IndexedAlbum.t) (hashes : list string)
    : Prop :=
  IndexedAlbum.hash <$> ALBUMS = Some <$> hashes ∧
  StronglySorted (λ h1 h2, String.leb h1 h2) hashes.

(** What a stage-advancing call for artist [h] may do to an entry. *)
Definition advances (h : string) (e e' : CacheEntry.t) : Prop :=
  CacheEntry.artisthash e' = CacheEntry.artisthash e ∧
  CacheEntry.tracks e' = CacheEntry.tracks e ∧
  CacheEntry.albumhashes e' = CacheEntry.albumhashes e ∧
  (CacheEntry.type_checked e → CacheEntry.type_checked e') ∧
  (CacheEntry.albums_fetched e → CacheEntry.albums_fetched e') ∧
  (CacheEntry.artisthash e ≠ h → e' = e).

(** A path of the defaults directory. *)
Definition default_path (path : string) : Prop :=
  ∃ n : Z, (0 ≤ n ≤ 20)%Z ∧ path = "defaults/" +:+ pretty n +:+ ".webp".

(** Twenty characters of [choices], then the extension. *)
Definition random_path (path : string) : Prop :=
  ∃ name,
    path = name +:+ ".webp" ∧ String.length name = 20 ∧
    ∀ i c, String.get i name = Some c →
      ∃ j, String.get j AlbumsLib.choices = Some c.

(** The pool has no track of the album of this track. *)
Definition pool_free_of_album `{!Helpers.ops} (track : DbTrack.t)
    (pool : list DbTrack.t) : Prop :=
  Forall (λ t, DbTrack.albumhash t ≠
               Helpers.create_album_hash (DbTrack.album track)
                 (DbTrack.albumartist track))
         pool.

(** The two tests of [search_albums_by_name]. *)
Definition title_matches `{!Builtins.ops} (query : string)
    (a : IndexedAlbum.t) : Prop :=
  Py.str_in (Builtins.lower query) (Builtins.lower (IndexedAlbum.title a)).

Definition artist_matches `{!Builtins.ops} (query : string)
    (a : IndexedAlbum.t) : Prop :=
  Py.str_in (Builtins.lower query) (Builtins.lower (IndexedAlbum.artist a)).

(** One call to [taglib.extract_thumb] that found nothing. *)
Definition failed `{!TagLib.ops} (call : string * string) : Prop :=
  TagLib.extract_thumb call.1 call.2 = false.
End Laws.

(* ================================================================== *)
(** * Part III. Concrete libraries                                     *)
(* ================================================================== *)

(** Small stores and libraries on which the statements below are
    exercised. *)
Module Examples.
Import ArtistsCache ArtistApi.

Definition album (hash : string) (artists : list string)
    (single ep compilation : bool) : Album.t :=
  Album.mk hash hash artists 0 single ep compilation.

Definition track (hash albumhash : string) : Track.t :=
  Track.mk hash albumhash [] hash 180 0.

Definition artist_x : Artist.t := Artist.mk "x" "X" 0 0 0 false.

(** The analysis leaves the albums as the store has them; [int] reads
    one or two decimal digits. *)
Definition digit (c : ascii) : option Z :=
  let n := Z.of_nat (nat_of_ascii c) in
  if ((48 <=? n) && (n <=? 57))%Z then Some (n - 48)%Z else None.

Definition collab : Collab.ops :=
  {| Collab.check_is_favorite _ _ := false;
     Collab.remove_duplicates ts := ts;
     Collab.check_type a := a;
     Collab.get_date_from_tracks _ a := a;
     Collab.check_is_single _ a := a;
     Collab.int s :=
       match s with
       | String c EmptyString =>
           if digit c is Some d then Ok d else Raise ValueError
       | String c (String c' EmptyString) =>
           match digit c, digit c' with
           | Some d, Some d' => Ok (10 * d + d')%Z
           | _, _ => Raise ValueError
           end
       | _ => Raise ValueError
       end |}.

(** Identities of arbitrary shape: one is a piece of another. *)
Definition nested_albums : AlbumStore.ops :=
  {| AlbumStore.get_album_by_hash h :=
       if String.eqb h "abc" then Some (album "abc" ["x"] false false false)
       else None;
     AlbumStore.get_albums_by_artisthash _ :=
       [album "b" ["x"] false false false];
     AlbumStore.count_albums_by_artisthash _ := 2%Z |}.

(** Identities of three characters, none of them the separator. *)
Definition plain_albums : AlbumStore.ops :=
  {| AlbumStore.get_album_by_hash h :=
       if String.eqb h "abc" then Some (album "abc" ["x"] false false false)
       else None;
     AlbumStore.get_albums_by_artisthash _ :=
       [album "abc" ["x"] false false false;
        album "bcd" ["x"] false false false];
     AlbumStore.count_albums_by_artisthash _ := 2%Z |}.

(** An artist without albums of their own, and their four tracks. *)
Definition no_albums : AlbumStore.ops :=
  {| AlbumStore.get_album_by_hash _ := None;
     AlbumStore.get_albums_by_artisthash _ := [];
     AlbumStore.count_albums_by_artisthash _ := 0%Z |}.

Definition four : list Track.t :=
  [track "t1" "s1"; track "t2" "s2"; track "t3" "s3"; track "t4" "s4"].

Definition four_tracks : TrackStore.ops :=
  {| TrackStore.get_tracks_by_artist h :=
       if String.eqb h "x" then four else [];
     TrackStore.get_tracks_by_albumhash h :=
       filter (λ t, Track.albumhash t = h) four |}.

Definition artists_x : ArtistStore.ops :=
  {| ArtistStore.get_artist_by_hash h :=
       if String.eqb h "x" then Some artist_x else None |}.

(** Seven regular albums of artist [x]. *)
Definition seven : list Album.t :=
  (λ h, album h ["x"] false false false)
    <$> ["a01"; "a02"; "a03"; "a04"; "a05"; "a06"; "a07"].

Definition seven_albums : AlbumStore.ops :=
  {| AlbumStore.get_album_by_hash h :=
       head (filter (λ a, Album.albumhash a = h) seven);
     AlbumStore.get_albums_by_artisthash h :=
       if String.eqb h "x" then seven else [];
     AlbumStore.count_albums_by_artisthash h :=
       if String.eqb h "x" then 7%Z else 0%Z |}.

Definition seven_tracks : TrackStore.ops :=
  {| TrackStore.get_tracks_by_artist h :=
       if String.eqb h "x" then [track "t1" "a01"; track "t2" "a02"]
       else [];
     TrackStore.get_tracks_by_albumhash h :=
       filter (λ t, Track.albumhash t = h)
         [track "t1" "a01"; track "t2" "a02"] |}.

(** A library for [albumslib]: the hash is the title joined to the
    artist. *)
Definition helpers : Helpers.ops :=
  {| Helpers.create_album_hash title artist := title +:+ "/" +:+ artist |}.

Definition malformed : IndexedAlbum.t := IndexedAlbum.mk None "?" "?".

Definition db_track (title album albumartist : string) : DbTrack.t :=
  DbTrack.mk (album +:+ "/" +:+ albumartist) title album albumartist
    "2020" (title +:+ ".mp3").

(** Requests: no parameter at all, or a limit only. *)
Definition plain_request : Request := mkRequest None None.
Definition limit_request (limit : string) : Request :=
  mkRequest (Some limit) None.

(** A cache in which a summary request has left a track of [x]. *)
Definition cached_x : list CacheEntry.t :=
  [CacheEntry.init "x" ∅ [track "t1" "a01"]].

Definition entry_x : CacheEntry.t := CacheEntry.init "x" {["abc"]} [].
Definition entry_y : CacheEntry.t := CacheEntry.init "y" ∅ [].
End Examples.

(** Collaborators of [albumslib]. *)
Module LibExamples.
Import AlbumsLib.

(** A generator that counts: the draw is its state, folded into the
    range asked for. *)
Definition counter : Random.ops :=
  {| Random.state := nat;
     Random.randint a b s :=
       ((a + Z.of_nat s `mod` (b - a + 1))%Z, S s);
     Random.choice seq s :=
       (default "a"%char (String.get (s `mod` String.length seq) seq),
        S s) |}.

(** Only [b.mp3] carries a thumbnail. *)
Definition one_thumb : TagLib.ops :=
  {| TagLib.extract_thumb filepath _ := String.eqb filepath "b.mp3" |}.

(** Text that is lower case and needs no quoting. *)
Definition plain_text : Builtins.ops :=
  {| Builtins.quote_plus s := s; Builtins.lower s := s |}.

Definition indexed (title artist : string) : IndexedAlbum.t :=
  IndexedAlbum.mk (Some (title +:+ "/" +:+ artist)) title artist.

(** Three rows, out of order, and two tracks. *)
Definition library : Instances.ops :=
  {| Instances.db_album := string * string;
     Instances.get_all_albums := [("b", "x"); ("c", "y"); ("a", "x")];
     Instances.Album row := indexed row.1 row.2;
     Instances.create_all_tracks :=
       [ServerTrack.mk "second" 200; ServerTrack.mk "first" 100] |}.

(** The same with a row whose album has no hash. *)
Definition broken_library : Instances.ops :=
  {| Instances.db_album := option (string * string);
     Instances.get_all_albums := [Some ("b", "x"); None; Some ("a", "x")];
     Instances.Album row :=
       match row with
       | Some row => indexed row.1 row.2
       | None => Examples.malformed
       end;
     Instances.create_all_tracks := [] |}.

Definition sorted_albums : list IndexedAlbum.t :=
  [indexed "a" "x"; indexed "b" "x"; indexed "c" "y"].

Definition pool : list DbTrack.t :=
  [Examples.db_track "a" "T" "A"; Examples.db_track "b" "U" "A";
   Examples.db_track "c" "T" "A"].
End LibExamples.
(* ================================================================== *)
(** * Part IV. Proofs                                                  *)
(* ================================================================== *)

(** ** Strings: [in] against [join] *)

Section StrIn.
Import Py.
Local Arguments ascii_dec : simpl never.
Local Arguments String.append !_ _ / : simpl nomatch.

Lemma prefix_nil (t : string) : String.prefix EmptyString t = true.
Proof. by destruct t. Qed.

Lemma prefix_app_self (h t : string) : String.prefix h (h +:+ t) = true.
Proof.
  induction h as [|c h IH]; simpl; [apply prefix_nil|].
  by destruct (ascii_dec c c).
Qed.

Lemma str_in_here (h t : string) : String.prefix h t = true → str_in h t = true.
Proof. intros Hp. destruct t; simpl in *; by rewrite Hp. Qed.

Lemma str_in_skip (h a t : string) : str_in h t = true → str_in h (a +:+ t) = true.
Proof.
  intros Ht. induction a as [|c a IH]; simpl; [done|].
  rewrite IH. apply orb_true_r.
Qed.

Lemma str_in_middle (h a b : string) : str_in h (a +:+ h +:+ b) = true.
Proof. apply str_in_skip, str_in_here, prefix_app_self. Qed.

Lemma str_in_whole (h : string) : str_in h h = true.
Proof.
  apply str_in_here. induction h as [|c h IH]; simpl; [done|].
  by destruct (ascii_dec c c).
Qed.

Lemma str_in_join (h : string) (hs : list string) :
  h ∈ hs → str_in h (join "-" hs) = true.
Proof.
  induction hs as [|x hs IH]; [by intros ?%elem_of_nil|].
  intros [->|Hin]%elem_of_cons; unfold join in *; simpl.
  - destruct hs; [apply str_in_whole|].
    apply str_in_here, prefix_app_self.
  - destruct hs as [|y hs]; [by apply elem_of_nil in Hin|].
    apply str_in_skip with (a := x), str_in_skip with (a := "-"), IH, Hin.
Qed.

(** The separator is not a character of a plain hash. *)
Lemma no_dash_cons (c : ascii) (h : string) :
  str_in "-" (String c h) = false → c ≠ "-"%char ∧ str_in "-" h = false.
Proof.
  simpl. destruct (ascii_dec "-" c) as [<-|Hne].
  - by destruct h.
  - rewrite orb_false_l. intros Hh. split; congruence.
Qed.

(** A window that starts inside an identity runs over the separator. *)
Lemma prefix_over_dash (h x r : string) :
  str_in "-" h = false → String.length x < String.length h →
  String.prefix h (x +:+ "-" +:+ r) = false.
Proof.
  revert h. induction x as [|c x IH]; intros h Hd Hlen.
  - destruct h as [|d h]; simpl in *; [lia|].
    apply no_dash_cons in Hd as [Hd _].
    destruct (ascii_dec d "-"); congruence.
  - destruct h as [|d h]; simpl in *; [lia|].
    apply no_dash_cons in Hd as [_ Hd].
    destruct (ascii_dec d c); [|done]. apply IH; [done|lia].
Qed.

Lemma str_in_over_dash (h x r : string) :
  str_in "-" h = false → String.length x < String.length h →
  str_in h (x +:+ "-" +:+ r) = str_in h r.
Proof.
  intros Hd. induction x as [|c x IH]; intros Hlen.
  - change (str_in h (EmptyString +:+ "-" +:+ r))
      with (String.prefix h (EmptyString +:+ "-" +:+ r) || str_in h r).
    by rewrite prefix_over_dash.
  - change (str_in h (String c x +:+ "-" +:+ r))
      with (String.prefix h (String c x +:+ "-" +:+ r)
            || str_in h (x +:+ "-" +:+ r)).
    rewrite prefix_over_dash by done. simpl in Hlen. apply IH. lia.
Qed.

Lemma prefix_same_length (h x t : string) :
  String.length h = String.length x →
  String.prefix h (x +:+ t) = true → h = x.
Proof.
  revert x. induction h as [|c h IH]; intros [|d x] Hlen; simpl in *;
    try done.
  destruct (ascii_dec c d) as [->|]; [|done].
  intros Hp. f_equal. apply IH; [lia|done].
Qed.

Lemma append_empty_r (s : string) : s +:+ EmptyString = s.
Proof. induction s; simpl; congruence. Qed.

Lemma prefix_longer (u v : string) :
  String.length v < String.length u → String.prefix u v = false.
Proof.
  revert v. induction u as [|g u IH]; intros [|k v] Hl; simpl in *;
    try lia; try done.
  destruct (ascii_dec g k); [|done]. apply IH. lia.
Qed.

Lemma str_in_longer (a b : string) :
  String.length b < String.length a → str_in a b = false.
Proof.
  induction b as [|e b IH]; intros Hl.
  - change (String.prefix a EmptyString || false = false).
    by rewrite prefix_longer.
  - change (String.prefix a (String e b) || str_in a b = false).
    rewrite prefix_longer by done. apply IH. simpl in Hl. lia.
Qed.

Lemma str_in_same_length (h x : string) :
  String.length h = String.length x → str_in h x = true → h = x.
Proof.
  intros Hlen Hin. apply (prefix_same_length _ _ EmptyString); [done|].
  rewrite append_empty_r. destruct x as [|d x].
  - by destruct h.
  - change (String.prefix h (String d x) || str_in h x = true) in Hin.
    apply orb_true_iff in Hin as [Hp|Hin]; [done|].
    rewrite str_in_longer in Hin; [done|]. simpl in Hlen. lia.
Qed.

(** On plain hashes of one length, occurrence in the joined text is
    membership. *)
Lemma str_in_join_plain (n : nat) (h : string) (hs : list string) :
  0 < n → Reference.plain_hash n h → Forall (Reference.plain_hash n) hs →
  str_in h (join "-" hs) = true → h ∈ hs.
Proof.
  intros Hn [Hlen Hd] Hall. induction Hall as [|x hs [Hx _] Hall IH].
  - destruct h; simpl in *; [lia|done].
  - unfold join in *. destruct hs as [|y hs].
    + simpl. intros Hin. apply list_elem_of_singleton.
      apply str_in_same_length; [congruence|done].
    + change (String.concat "-" (x :: y :: hs))
        with (x +:+ "-" +:+ String.concat "-" (y :: hs)).
      destruct x as [|c x]; [simpl in Hx; lia|].
      change (str_in h (String c x +:+ "-" +:+ String.concat "-" (y :: hs)))
        with (String.prefix h
                (String c x +:+ "-" +:+ String.concat "-" (y :: hs))
              || str_in h (x +:+ "-" +:+ String.concat "-" (y :: hs))).
      intros [Hp|Hin]%orb_true_iff.
      * apply prefix_same_length in Hp as ->; [left|congruence].
      * right. apply IH. rewrite str_in_over_dash in Hin; [done..|].
        simpl in Hx. lia.
Qed.
End StrIn.

(** ** The cache *)

Section Cache.
Import ArtistsCache Reference.

Lemma is_for_true (h : string) (e : CacheEntry.t) :
  is_for h e = true ↔ CacheEntry.artisthash e = h.
Proof. apply String.eqb_eq. Qed.

Lemma is_for_false (h : string) (e : CacheEntry.t) :
  is_for h e = false ↔ CacheEntry.artisthash e ≠ h.
Proof. apply String.eqb_neq. Qed.

Lemma item_0_cons {A} (x : A) (xs : list A) : Py.item (x :: xs) 0 = Ok x.
Proof. done. Qed.

Lemma item_0_nil {A} : Py.item (@nil A) 0 = Raise IndexError.
Proof. done. Qed.

Lemma entry_of_cons (h : string) (e : CacheEntry.t) (artists : deque) :
  entry_of h (e :: artists) =
    if is_for h e then Ok e else entry_of h artists.
Proof.
  unfold entry_of. rewrite filter_cons.
  destruct (is_for h e); by simpl.
Qed.

Lemma entry_of_nil (h : string) : entry_of h [] = Raise IndexError.
Proof. done. Qed.

Lemma entry_of_no_entry (h : string) (artists : deque) :
  no_entry h artists → entry_of h artists = Raise IndexError.
Proof.
  induction 1 as [|e artists Hne _ IH]; [done|].
  rewrite entry_of_cons. by apply is_for_false in Hne as ->.
Qed.

Lemma entry_of_is_for (h : string) (artists : deque) (e : CacheEntry.t) :
  entry_of h artists = Ok e → CacheEntry.artisthash e = h.
Proof.
  induction artists as [|a artists IH]; [done|].
  rewrite entry_of_cons. destruct (is_for h a) eqn:Ha; [|done].
  intros [= <-]. by apply is_for_true.
Qed.

(** An assignment to the entry found shows when the entry is looked up
    again. *)
Lemma entry_of_assign (h : string) (f : CacheEntry.t → CacheEntry.t)
    (artists : deque) (e : CacheEntry.t) :
  (∀ a, CacheEntry.artisthash (f a) = CacheEntry.artisthash a) →
  entry_of h artists = Ok e →
  entry_of h (assign h f artists) = Ok (f e).
Proof.
  intros Hf. induction artists as [|a artists IH]; [done|].
  rewrite entry_of_cons. simpl. destruct (is_for h a) eqn:Ha.
  - intros [= <-]. rewrite entry_of_cons.
    unfold is_for in *. by rewrite Hf, Ha.
  - intros He. rewrite entry_of_cons, Ha. by apply IH.
Qed.

Lemma assign_length (h : string) (f : CacheEntry.t → CacheEntry.t)
    (artists : deque) :
  length (assign h f artists) = length artists.
Proof.
  induction artists as [|a artists IH]; [done|].
  simpl. destruct (is_for h a); simpl; congruence.
Qed.

Lemma get_albums_by_artisthash_from_no_entry (i : Z) (h : string)
    (artists : deque) :
  no_entry h artists →
  get_albums_by_artisthash_from i h artists = ([], -1)%Z.
Proof.
  intros Hno. revert i. induction Hno as [|e artists Hne _ IH]; [done|].
  intros i. simpl. by apply is_for_false in Hne as ->.
Qed.

(** The albums [get_albums_by_artisthash] returns are those of the
    entry [entry_of] finds. *)
Lemma get_albums_by_artisthash_from_entry (i : Z) (h : string)
    (artists : deque) (e : CacheEntry.t) :
  entry_of h artists = Ok e →
  (get_albums_by_artisthash_from i h artists).1 = CacheEntry.albums e.
Proof.
  revert i. induction artists as [|a artists IH]; [done|].
  intros i. rewrite entry_of_cons. simpl.
  destruct (is_for h a); [by intros [= <-]|]. apply IH.
Qed.

Lemma add_entry_bounded (h : string) (hs : gset string)
    (ts : list Track.t) (artists : deque) :
  length artists ≤ 1 →
  add_entry h hs ts artists = [CacheEntry.init h hs ts].
Proof.
  intros Hlen. unfold add_entry, Py.deque_append, maxlen.
  destruct artists as [|a [|b artists]]; simpl in *; [done..|lia].
Qed.

Lemma run_adds_bounded (calls : list AddCall) (artists : deque) :
  length artists ≤ 1 → length (run_adds calls artists) ≤ 1.
Proof.
  revert artists. induction calls as [|c calls IH]; intros artists Hlen;
    [done|].
  simpl. apply IH. by rewrite add_entry_bounded.
Qed.

Lemma run_adds_snoc (calls : list AddCall) (c : AddCall) (artists : deque) :
  run_adds (calls ++ [c]) artists =
    add_entry c.1.1 c.1.2 c.2 (run_adds calls artists).
Proof. unfold run_adds. by rewrite foldl_app. Qed.

(** C9: over any sequence of [ArtistsCache.add_entry] calls on the
    initially empty deque, the cache holds at most one entry after every
    call, and after the last call it holds exactly the entry built from
    that call's arguments, whatever was added before. *)
Theorem add_entry_keeps_last_only (calls : list AddCall) (c : AddCall) :
  (∀ k, length (run_adds (take k (calls ++ [c])) initial) ≤ 1) ∧
  run_adds (calls ++ [c]) initial = [entry_of_call c] ∧
  CacheEntry.artisthash <$> run_adds (calls ++ [c]) initial = [c.1.1].
Proof.
  assert (Hlast : run_adds (calls ++ [c]) initial = [entry_of_call c]).
  { rewrite run_adds_snoc. apply add_entry_bounded, run_adds_bounded.
    simpl. lia. }
  split; [|split; [done|by rewrite Hlast]].
  intros k. apply run_adds_bounded. simpl. lia.
Qed.

Section WithStores.
Context `{!AlbumStore.ops, !TrackStore.ops, !Collab.ops}.

Lemma merge_store_albums_filter (s : string)
    (store_albums entry_albums : list Album.t) :
  merge_store_albums s store_albums entry_albums =
    entry_albums ++
    filter (λ a, ¬ Py.str_in (Album.albumhash a) s) store_albums.
Proof.
  unfold merge_store_albums. revert entry_albums.
  induction store_albums as [|a store_albums IH]; intros entry_albums.
  - by rewrite app_nil_r.
  - simpl. rewrite IH, filter_cons.
    destruct (Py.str_in (Album.albumhash a) s); simpl; [done|].
    by rewrite <-app_assoc.
Qed.

(** What [get_albums] leaves in the entry, for identities of any
    shape. *)
Lemma get_albums_merges_by_substring (h : string) (artists : deque) :
  get_albums_merges merged_by_substring h artists.
Proof.
  intros entry He. unfold get_albums. rewrite He. simpl.
  eexists _, _. split; [done|]. split.
  - by apply entry_of_assign.
  - simpl. apply merge_store_albums_filter.
Qed.

(** On plain hashes the two merge rules agree. *)
Lemma merged_by_substring_plain (n : nat)
    (resolved store_albums : list Album.t) :
  0 < n →
  Forall (plain_hash n) (Album.albumhash <$> resolved) →
  Forall (plain_hash n) (Album.albumhash <$> store_albums) →
  merged_by_substring resolved store_albums =
    merged_by_membership resolved store_albums.
Proof.
  intros Hn Hres Hstore.
  unfold merged_by_substring, merged_by_membership. f_equal.
  rewrite Forall_fmap in Hstore.
  induction Hstore as [|a store_albums Ha _ IH]; [done|].
  rewrite !filter_cons, IH.
  destruct (Py.str_in (Album.albumhash a) _) eqn:Hin; simpl.
  - apply str_in_join_plain with (n := n) in Hin; [|done..].
    by rewrite decide_False by (by intros []).
  - rewrite decide_True; [done|].
    intros Hmem%str_in_join. congruence.
Qed.

(** C1, amended: when the resolved albums and the albums of the store
    query all carry identities of one common non-zero length without
    the separator character, [get_albums] appends a store album
    exactly when its identity is that of no resolved album. *)
Theorem get_albums_exact_on_plain_hashes (n : nat) (h : string)
    (artists : deque) :
  0 < n →
  (∀ entry, entry_of h artists = Ok entry →
     Forall (plain_hash n) (Album.albumhash <$> resolved_albums entry)) →
  Forall (plain_hash n)
    (Album.albumhash <$> AlbumStore.get_albums_by_artisthash h) →
  get_albums_merges merged_by_membership h artists.
Proof.
  intros Hn Hres Hstore entry He.
  destruct (get_albums_merges_by_substring h artists entry He)
    as (artists' & entry' & Hget & He' & Halbums).
  exists artists', entry'. split; [done|]. split; [done|].
  rewrite Halbums. apply (merged_by_substring_plain n); auto.
Qed.

(** C4, amended: a stage-advancing call for an artist identity with no
    matching entry raises [IndexError]; none of the three calls
    defines a recoverable condition or repopulates the cache. *)
Theorem stage_calls_raise_without_entry (h : string) (artists : deque) :
  no_entry h artists →
  get_tracks h artists = Raise IndexError ∧
  get_albums h artists = Raise IndexError ∧
  process_album_type h artists = Raise IndexError.
Proof.
  intros Hno%entry_of_no_entry.
  unfold get_tracks, get_albums, process_album_type.
  by rewrite Hno.
Qed.
End WithStores.
End Cache.

Section CacheExamples.
Import ArtistsCache Reference Examples.

Example get_albums_exact_on_plain_hashes_witness :
  @get_albums_merges plain_albums merged_by_membership "x" [entry_x].
Proof.
  apply (@get_albums_exact_on_plain_hashes plain_albums 3 "x" [entry_x]).
  - lia.
  - intros entry [= <-]. vm_compute. repeat constructor.
  - vm_compute. repeat constructor.
Defined.

(** C1 as stated fails: with the resolved identity [abc], the store
    album of identity [b] is of no resolved identity, yet it is not
    appended, because [b] occurs in the joined text. *)
Example get_albums_not_exact_membership :
  ¬ @get_albums_merges nested_albums merged_by_membership "x" [entry_x].
Proof.
  intros Hclaim.
  destruct (Hclaim entry_x eq_refl) as (artists' & entry' & Hget & He & Ha).
  vm_compute in Hget. injection Hget as <-.
  vm_compute in He. injection He as <-.
  vm_compute in Ha. discriminate Ha.
Qed.
End CacheExamples.

(** ** The classifier *)

Section Classifier.
Import ArtistApi Reference.

Lemma remove_skips_prefix `{EqDecision A} (x : A) (pre rest : list A) :
  Forall (λ y, y ≠ x) pre → Py.remove x (pre ++ x :: rest) = Ok (pre ++ rest).
Proof.
  induction 1 as [|y pre Hne _ IH]; simpl.
  - by rewrite decide_True.
  - rewrite decide_False by done. by rewrite IH.
Qed.

(** The removal loop never misses: each compilation is still in the
    list when its turn comes, and what is left are the albums without
    the flag, in order. *)
Lemma remove_each_compilations (pre rest : list Album.t) :
  Forall (λ a, ¬ Album.is_compilation a) pre →
  remove_each (filter (λ a, Album.is_compilation a) rest) (pre ++ rest) =
    Ok (pre ++ filter (λ a, ¬ Album.is_compilation a) rest).
Proof.
  revert pre. induction rest as [|a rest IH]; intros pre Hpre; [done|].
  rewrite !filter_cons. destruct (Album.is_compilation a) eqn:Ha; simpl.
  - rewrite remove_skips_prefix; [by apply IH|].
    eapply Forall_impl; [exact Hpre|]. intros y Hy ->.
    by rewrite Ha in Hy.
  - rewrite (cons_middle a pre rest), app_assoc, IH.
    + by rewrite <-app_assoc.
    + apply Forall_app. split; [done|]. apply Forall_singleton.
      rewrite Ha. by intros [].
Qed.

Lemma remove_EPs_and_singles_filter (l : list Album.t) :
  remove_EPs_and_singles l =
    filter (λ a, ¬ Album.is_EP a ∧ ¬ Album.is_single a) l.
Proof.
  unfold remove_EPs_and_singles. rewrite list_filter_filter.
  apply list_filter_iff. tauto.
Qed.

(** The classifier computes the reference buckets. *)
Lemma classify_ok (artisthash : string) (all_albums : list Album.t) :
  classify artisthash all_albums = Ok (classify_spec artisthash all_albums).
Proof.
  unfold classify.
  pose proof (remove_each_compilations []) as Hrm. simpl in Hrm.
  rewrite Hrm by constructor. simpl. unfold classify_spec.
  rewrite !remove_EPs_and_singles_filter, !list_filter_filter.
  do 2 f_equal; apply list_filter_iff; tauto.
Qed.

(** C2: on every album list and for every artist identity, the buckets
    [get_artist_albums] computes (lines 235-254) are those of the
    reference definition: singles and EPs by their flag alone; regular
    albums the primary-credit albums that are no EP, no single and no
    compilation; compilations the primary-credit albums that are no EP
    and no single and carry the compilation flag; appearances the other
    albums that are no EP and no single.  The removal loop raises
    nothing. *)
Theorem classify_refines_spec (artisthash : string)
    (all_albums : list Album.t) :
  ∃ b, classify artisthash all_albums = Ok b ∧
       b = classify_spec artisthash all_albums ∧
       ∀ a,
         let primary := artisthash ∈ Album.albumartists_hashes a in
         (a ∈ singles b ↔ a ∈ all_albums ∧ Album.is_single a) ∧
         (a ∈ eps b ↔ a ∈ all_albums ∧ Album.is_EP a) ∧
         (a ∈ albums b ↔
            a ∈ all_albums ∧ primary ∧ ¬ Album.is_EP a ∧
            ¬ Album.is_single a ∧ ¬ Album.is_compilation a) ∧
         (a ∈ compilations b ↔
            a ∈ all_albums ∧ primary ∧ ¬ Album.is_EP a ∧
            ¬ Album.is_single a ∧ Album.is_compilation a) ∧
         (a ∈ appearances b ↔
            a ∈ all_albums ∧ ¬ primary ∧ ¬ Album.is_EP a ∧
            ¬ Album.is_single a).
Proof.
  eexists. split; [apply classify_ok|]. split; [done|].
  intros a. unfold classify_spec. simpl.
  rewrite !list_elem_of_filter. tauto.
Qed.

Lemma slice_to_subseteq {A} (xs : list A) (n : Z) (x : A) :
  x ∈ Py.slice_to xs n → x ∈ xs.
Proof.
  unfold Py.slice_to. destruct (n <? 0)%Z; intros Hin;
    by eapply (subseteq_take _ xs).
Qed.

Lemma slice_to_nil {A} (n : Z) : Py.slice_to (@nil A) n = [].
Proof. unfold Py.slice_to. destruct (n <? 0)%Z; apply take_nil. Qed.

Lemma slice_to_length {A} (xs : list A) (n : nat) :
  length xs ≤ n → Py.slice_to xs (Z.of_nat n) = xs.
Proof.
  intros Hlen. unfold Py.slice_to.
  destruct (Z.of_nat n <? 0)%Z eqn:Hn; [lia|].
  rewrite Nat2Z.id. by apply take_ge.
Qed.

(** C3, amended: for every album list, every assignment of the flags
    and every limit, the returned [albums] and [compilations] are
    disjoint from each other and from [singles] and [eps]; an album
    returned in both [singles] and [eps] carries both flags; and no
    single or EP is returned in [albums], [compilations] or
    [appearances]. *)
Theorem buckets_exclusive_up_to_double_flags (artisthash : string)
    (all_albums : list Album.t) (limit : Z) :
  ∃ b, classify artisthash all_albums = Ok b ∧
       exclusive_up_to_double_flags (slice_buckets limit b).
Proof.
  eexists. split; [apply classify_ok|].
  unfold exclusive_up_to_double_flags, disjoint, is_single_or_EP. simpl.
  repeat split; repeat intros ?;
    repeat match goal with
      | H : _ ∈ Py.slice_to _ _ |- _ => apply slice_to_subseteq in H
      | H : _ ∈ filter _ _ |- _ => apply list_elem_of_filter in H as [? _]
      end; tauto.
Qed.
End Classifier.

Section ClassifierExamples.
Import ArtistApi Reference Examples.

(** C3 as stated fails: an album flagged both [is_single] and [is_EP]
    is returned in [singles] and in [eps]. *)
Example singles_and_eps_overlap :
  let both := album "s" ["x"] true true false in
  ∃ b, classify "x" [both] = Ok b ∧
       both ∈ singles (slice_buckets 6 b) ∧
       both ∈ eps (slice_buckets 6 b) ∧
       ¬ pairwise_disjoint (slice_buckets 6 b).
Proof.
  eexists. split; [vm_compute; reflexivity|].
  assert (Hs : album "s" ["x"] true true false
               ∈ [album "s" ["x"] true true false]) by apply list_elem_of_here.
  split; [exact Hs|]. split; [exact Hs|].
  intros (_ & _ & _ & _ & _ & Hdis). exact (Hdis _ Hs Hs).
Qed.
End ClassifierExamples.

(** ** The routes *)

Section Routes.
Import ArtistsCache ArtistApi Reference.
Context `{!AlbumStore.ops, !TrackStore.ops, !ArtistStore.ops, !Collab.ops}.

Lemma tracks_cached_entry (h : string) (artists : deque) :
  tracks_cached h artists = true → ∃ e, entry_of h artists = Ok e.
Proof.
  induction artists as [|a artists IH]; [done|].
  simpl. rewrite entry_of_cons. destruct (is_for h a); simpl; eauto.
Qed.

Lemma albums_fetched_entry (h : string) (artists : deque) (b : bool) :
  albums_fetched h artists = Some b → ∃ e, entry_of h artists = Ok e.
Proof.
  induction artists as [|a artists IH]; [done|].
  simpl. rewrite entry_of_cons. destruct (is_for h a); simpl; eauto.
Qed.

Lemma get_albums_entry (h : string) (artists artists' : deque) :
  get_albums h artists = Ok artists' → ∃ e, entry_of h artists' = Ok e.
Proof.
  unfold get_albums. destruct (entry_of h artists) as [e|] eqn:He; [|done].
  simpl. intros [= <-]. eexists. by apply entry_of_assign.
Qed.

Lemma process_album_type_entry (h : string) (artists artists' : deque) :
  process_album_type h artists = Ok artists' →
  ∃ e, entry_of h artists' = Ok e.
Proof.
  unfold process_album_type.
  destruct (entry_of h artists) as [e|] eqn:He; [|done].
  simpl. intros [= <-]. eexists. by apply entry_of_assign.
Qed.

(** When [ensure_albums] returns, the cache has an entry for the
    artist. *)
Lemma ensure_albums_entry (h : string) (artists artists' : deque) :
  ensure_albums h artists = Ok artists' → ∃ e, entry_of h artists' = Ok e.
Proof.
  unfold ensure_albums.
  set (artists0 := if negb (albums_cached h artists) then _ else _).
  destruct (albums_fetched h artists0) as [[]|] eqn:Hf; simpl.
  - intros [= <-]. by eapply albums_fetched_entry.
  - apply get_albums_entry.
  - apply get_albums_entry.
Qed.

Lemma classify_spec_lengths (h : string) (l : list Album.t) :
  let b := classify_spec h l in
  length (albums b) ≤ length l ∧ length (singles b) ≤ length l ∧
  length (eps b) ≤ length l ∧ length (appearances b) ≤ length l ∧
  length (compilations b) ≤ length l.
Proof. simpl. repeat split; apply length_filter. Qed.

Lemma slice_buckets_all (h : string) (l : list Album.t) :
  slice_buckets (Z.of_nat (length l)) (classify_spec h l) =
    classify_spec h l.
Proof.
  destruct (classify_spec_lengths h l) as (?&?&?&?&?).
  unfold slice_buckets. destruct (classify_spec h l); simpl in *.
  f_equal; by apply slice_to_length.
Qed.

(** What [respond_albums] returns when it returns: the buckets of the
    albums the entry then holds, cut at the limit in force. *)
Lemma respond_albums_returns (h : string) (limit : Z)
    (return_all : option string) (artists artists' : deque)
    (e : CacheEntry.t) (resp : AlbumsResponse) :
  entry_of h artists = Ok e →
  respond_albums h limit return_all artists = Ok (resp, artists') →
  ∃ e',
    entry_of h artists' = Ok e' ∧
    buckets resp =
      slice_buckets
        (if return_all is Some _
         then Z.of_nat (length (CacheEntry.albums e')) else limit)
        (classify_spec h (CacheEntry.albums e')).
Proof.
  intros He. unfold respond_albums.
  destruct (get_albums_by_artisthash h artists) as [all_albums index].
  destruct (Py.item artists index) as [indexed|]; [simpl|done].
  set (step := if negb (CacheEntry.type_checked indexed) then _ else _).
  assert (Hstep : ∀ artists1, step = Ok artists1 →
            ∃ e', entry_of h artists1 = Ok e').
  { subst step. intros artists1.
    destruct (negb (CacheEntry.type_checked indexed)).
    - apply process_album_type_entry.
    - intros [= <-]. eauto. }
  destruct step as [artists1|]; [simpl|done].
  destruct (Hstep artists1 eq_refl) as [e' He'].
  unfold get_albums_by_artisthash.
  rewrite (get_albums_by_artisthash_from_entry _ _ _ _ He').
  rewrite classify_ok. simpl.
  destruct (ArtistStore.get_artist_by_hash h); [simpl|done].
  intros [= <- <-]. eauto.
Qed.

(** C8: when a request to the artist-albums route carries the [all]
    parameter and the route returns, the limit in force is the number of
    albums the entry holds, and each of the five buckets is returned
    whole. *)
Theorem all_flag_returns_whole_buckets (h : string) (req : Request)
    (artists artists' : deque) (resp : AlbumsResponse) :
  is_Some (arg_all req) →
  get_artist_albums h req artists = Ok (resp, artists') →
  ∃ e b,
    entry_of h artists' = Ok e ∧
    classify h (CacheEntry.albums e) = Ok b ∧
    buckets resp =
      slice_buckets (Z.of_nat (length (CacheEntry.albums e))) b ∧
    buckets resp = b.
Proof.
  intros [v Hall]. unfold get_artist_albums. rewrite Hall.
  destruct (read_limit req) as [limit|]; [simpl|done].
  destruct (ensure_albums h artists) as [artists1|] eqn:Hens; [simpl|done].
  destruct (ensure_albums_entry _ _ _ Hens) as [e1 He1].
  intros Hresp.
  destruct (respond_albums_returns _ _ _ _ _ _ _ He1 Hresp)
    as (e & He & Hb).
  exists e, (classify_spec h (CacheEntry.albums e)).
  split; [done|]. split; [apply classify_ok|].
  split; [done|]. by rewrite Hb, slice_buckets_all.
Qed.

Lemma get_tracks_served (h : string) (artists : deque) :
  tracks_cached h artists = true →
  get_tracks h artists = Ok (served_tracks h artists).
Proof.
  intros Hc. unfold get_tracks, served_tracks. rewrite Hc.
  by destruct (tracks_cached_entry _ _ Hc) as [e ->].
Qed.

(** C7: for a known artist with no album credited as primary artist
    and fewer than ten tracks, the artist summary returns every track
    the route works with, whatever limit the request carries. *)
Theorem singles_only_artist_gets_every_track (h : string) (req : Request)
    (artists : deque) (artist : Artist.t) (limit : Z) :
  read_limit req = Ok limit →
  ArtistStore.get_artist_by_hash h = Some artist →
  AlbumStore.count_albums_by_artisthash h = 0%Z →
  length (served_tracks h artists) < 10 →
  ∃ artist' artists',
    get_artist h req artists =
      Ok (ArtistFound artist' (served_tracks h artists), artists').
Proof.
  intros Hlimit Hartist Hcount Hlen. unfold get_artist.
  rewrite Hlimit, Hartist, Hcount. simpl.
  destruct (tracks_cached h artists) eqn:Hc.
  - rewrite (get_tracks_served _ _ Hc). simpl.
    destruct (Z.of_nat _ <? 10)%Z eqn:Hlt; [|lia].
    rewrite slice_to_length by done. eauto.
  - unfold served_tracks in *. rewrite Hc in *. simpl.
    destruct (Z.of_nat _ <? 10)%Z eqn:Hlt; [|lia].
    rewrite slice_to_length by done. eauto.
Qed.

Lemma item_last {A} (xs : list A) :
  Py.item xs (-1) =
    match last xs with
    | Some x => Ok x
    | None => Raise IndexError
    end.
Proof.
  unfold Py.item. rewrite last_lookup. simpl.
  destruct xs as [|x xs]; [done|].
  destruct (Z.ltb_spec (Z.of_nat (length (x :: xs)) + -1) 0);
    [simpl length in *; lia|].
  replace (Z.to_nat (Z.of_nat (length (x :: xs)) + -1))
    with (pred (length (x :: xs))) by (simpl; lia).
  by destruct (_ !! _).
Qed.

(** C10: when no entry of the cache is for the requested artist,
    [get_albums_by_artisthash] returns the empty list and -1, and
    lines 230-268 of [get_artist_albums] then read [artists[-1]]: on an
    empty deque this raises [IndexError]; otherwise it is the last entry,
    whoever it is for, whose [type_checked] flag decides what follows. *)
Theorem lookup_without_entry_reads_last (h : string) (limit : Z)
    (return_all : option string) (artists : deque) :
  no_entry h artists →
  get_albums_by_artisthash h artists = ([], -1)%Z ∧
  match last artists with
  | None =>
      Py.item artists (-1) = Raise IndexError ∧
      respond_albums h limit return_all artists = Raise IndexError
  | Some e =>
      Py.item artists (-1) = Ok e ∧
      respond_albums h limit return_all artists =
        if CacheEntry.type_checked e then
          match ArtistStore.get_artist_by_hash h with
          | Some a =>
              Ok (mkAlbumsResponse (Artist.name a) empty_buckets, artists)
          | None => Raise AttributeError
          end
        else Raise IndexError
  end.
Proof.
  intros Hno.
  pose proof (get_albums_by_artisthash_from_no_entry 0 h artists Hno)
    as Hlookup.
  split; [done|]. unfold respond_albums.
  unfold get_albums_by_artisthash. rewrite Hlookup, item_last.
  destruct (last artists) as [e|]; [|done].
  split; [done|]. simpl.
  destruct (CacheEntry.type_checked e); simpl.
  - rewrite Hlookup. simpl.
    destruct (ArtistStore.get_artist_by_hash h); [|done]. simpl.
    do 3 f_equal. unfold slice_buckets, remove_EPs_and_singles. simpl.
    by rewrite !filter_nil, !slice_to_nil.
  - unfold process_album_type. by rewrite (entry_of_no_entry _ _ Hno).
Qed.

(** A request for an artist with no tracks and no entry does not get
    that far: [add_albums_to_cache] adds nothing and [get_albums]
    raises. *)
Lemma get_artist_albums_trackless (h : string) (req : Request)
    (artists : deque) (limit : Z) :
  read_limit req = Ok limit →
  no_entry h artists →
  TrackStore.get_tracks_by_artist h = [] →
  get_artist_albums h req artists = Raise IndexError.
Proof.
  intros Hlimit Hno Htracks. unfold get_artist_albums.
  rewrite Hlimit. simpl. unfold ensure_albums, add_albums_to_cache.
  rewrite Htracks. simpl.
  assert (Hf : albums_fetched h artists = None).
  { induction Hno as [|e artists Hne _ IH]; [done|].
    simpl. by apply is_for_false in Hne as ->. }
  destruct (negb (albums_cached h artists)); simpl; rewrite Hf; simpl.
  all: unfold get_albums; by rewrite (entry_of_no_entry _ _ Hno).
Qed.
(** *** The artist-albums route returns

    The route returns a response for every known artist that has a track
    in the store or an entry in the cache, when the limit can be read. *)

Lemma entry_of_elem (h : string) (artists : deque) (e : CacheEntry.t) :
  e ∈ artists → is_for h e = true → ∃ e', entry_of h artists = Ok e'.
Proof.
  intros Hin He. induction artists as [|a artists IH].
  - by apply elem_of_nil in Hin.
  - rewrite entry_of_cons. apply elem_of_cons in Hin as [<-|Hin].
    + rewrite He. eauto.
    + destruct (is_for h a); eauto.
Qed.

Lemma albums_cached_entry (h : string) (artists : deque) :
  albums_cached h artists = true → ∃ e, entry_of h artists = Ok e.
Proof.
  induction artists as [|a artists IH]; [done|].
  simpl. rewrite entry_of_cons. destruct (is_for h a); simpl; eauto.
Qed.

Lemma entry_albums_fetched (h : string) (artists : deque) (e : CacheEntry.t) :
  entry_of h artists = Ok e →
  albums_fetched h artists = Some (CacheEntry.albums_fetched e).
Proof.
  induction artists as [|a artists IH]; [done|].
  rewrite entry_of_cons. simpl. destruct (is_for h a); [|done].
  by intros [= <-].
Qed.

Lemma add_entry_entry (h : string) (hs : gset string) (ts : list Track.t)
    (artists : deque) :
  ∃ e, entry_of h (add_entry h hs ts artists) = Ok e.
Proof.
  apply entry_of_elem with (e := CacheEntry.init h hs ts).
  - unfold add_entry, Py.deque_append, maxlen.
    apply elem_of_app. right. apply list_elem_of_here.
  - apply String.eqb_refl.
Qed.

Lemma item_nat {A} (xs : list A) (k : nat) (x : A) :
  xs !! k = Some x → Py.item xs (Z.of_nat k) = Ok x.
Proof.
  intros Hk. unfold Py.item.
  destruct (Z.ltb_spec (Z.of_nat k) 0); [lia|].
  destruct (Z.ltb_spec (Z.of_nat k) 0); [lia|].
  by rewrite Nat2Z.id, Hk.
Qed.

(** The index [get_albums_by_artisthash] returns is that of the entry
    [entry_of] finds. *)
Lemma get_albums_by_artisthash_from_index (i : Z) (h : string)
    (artists : deque) (e : CacheEntry.t) :
  entry_of h artists = Ok e →
  ∃ k : nat,
    get_albums_by_artisthash_from i h artists =
      (CacheEntry.albums e, (i + Z.of_nat k)%Z) ∧
    artists !! k = Some e.
Proof.
  revert i. induction artists as [|a artists IH]; [done|].
  intros i. rewrite entry_of_cons. simpl. destruct (is_for h a).
  - intros [= <-]. exists 0. split; [|done]. f_equal. lia.
  - intros He. destruct (IH (i + 1)%Z He) as (k & -> & Hk).
    exists (S k). split; [|done]. f_equal. lia.
Qed.

Lemma ensure_albums_returns (h : string) (artists : deque) :
  TrackStore.get_tracks_by_artist h ≠ [] ∨ (∃ e, entry_of h artists = Ok e) →
  ∃ artists' e', ensure_albums h artists = Ok artists' ∧
                 entry_of h artists' = Ok e'.
Proof.
  intros Hsrc. unfold ensure_albums.
  set (artists0 := if negb (albums_cached h artists) then _ else _).
  assert (∃ e0, entry_of h artists0 = Ok e0) as [e0 He0].
  { subst artists0. destruct (albums_cached h artists) eqn:Hc; simpl.
    - by apply albums_cached_entry.
    - unfold add_albums_to_cache.
      destruct (TrackStore.get_tracks_by_artist h) as [|t ts] eqn:Ht; simpl.
      + by destruct Hsrc.
      + apply add_entry_entry. }
  rewrite (entry_albums_fetched _ _ _ He0).
  destruct (CacheEntry.albums_fetched e0); simpl; [eauto|].
  unfold get_albums. rewrite He0. simpl.
  eexists _, _. split; [done|]. by apply entry_of_assign.
Qed.

Lemma get_artist_albums_returns (h : string) (req : Request)
    (artists : deque) (limit : Z) (artist : Artist.t) :
  read_limit req = Ok limit →
  ArtistStore.get_artist_by_hash h = Some artist →
  TrackStore.get_tracks_by_artist h ≠ [] ∨ (∃ e, entry_of h artists = Ok e) →
  ∃ resp artists', get_artist_albums h req artists = Ok (resp, artists').
Proof.
  intros Hlimit Hartist Hsrc. unfold get_artist_albums.
  rewrite Hlimit. simpl.
  destruct (ensure_albums_returns h artists Hsrc) as (artists1 & e1 & -> & He1).
  simpl. unfold respond_albums, get_albums_by_artisthash.
  destruct (get_albums_by_artisthash_from_index 0 _ _ _ He1) as (k & -> & Hk).
  rewrite Z.add_0_l, (item_nat _ _ _ Hk). simpl.
  assert (∃ artists2,
    (if negb (CacheEntry.type_checked e1)
     then process_album_type h artists1 else Ok artists1) = Ok artists2)
    as [artists2 ->].
  { destruct (CacheEntry.type_checked e1); simpl; [eauto|].
    unfold process_album_type. rewrite He1. simpl. eauto. }
  simpl. rewrite classify_ok, Hartist. simpl. eauto.
Qed.

(** *** The tracks the artist summary works with

    On a cache filled by the routes, the cached tracks of an artist are
    the tracks the store has for that artist. *)

Lemma coherent_initial : coherent initial.
Proof. split; [simpl; lia|constructor]. Qed.

Lemma coherent_add_entry (h : string) (hs : gset string) (ts : list Track.t)
    (artists : deque) :
  ts = [] ∨ ts = TrackStore.get_tracks_by_artist h →
  coherent artists → coherent (add_entry h hs ts artists).
Proof.
  intros Hts [Hlen _]. rewrite add_entry_bounded by done.
  split; [simpl; lia|]. apply Forall_singleton. simpl.
  destruct ts; [by left|]. simpl. destruct Hts; [done|by right].
Qed.

Lemma coherent_assign (h : string) (f : CacheEntry.t → CacheEntry.t)
    (artists : deque) :
  (∀ a, CacheEntry.artisthash (f a) = CacheEntry.artisthash a) →
  (∀ a, CacheEntry.tracks (f a) = CacheEntry.tracks a) →
  coherent artists → coherent (assign h f artists).
Proof.
  intros Hh Ht [Hlen Hall]. split; [by rewrite assign_length|].
  clear Hlen. induction Hall as [|a artists Ha Hall IH]; [constructor|].
  simpl. destruct (is_for h a); constructor; try done.
  by rewrite Hh, Ht.
Qed.

Lemma coherent_served_tracks (h : string) (artists : deque) :
  coherent artists → served_tracks h artists = TrackStore.get_tracks_by_artist h.
Proof.
  intros [Hlen Hall]. unfold served_tracks.
  destruct artists as [|a [|b artists]]; [done| |simpl in Hlen; lia].
  simpl. rewrite entry_of_cons.
  destruct (is_for h a) eqn:Ha; [|done]. simpl.
  destruct (0 <? length (CacheEntry.tracks a)) eqn:Hts; [|done].
  apply Forall_singleton in Hall as [Hnil|Hstore].
  - rewrite Hnil in Hts. done.
  - apply is_for_true in Ha. by rewrite Hstore, Ha.
Qed.

Lemma get_artist_coherent (h : string) (req : Request)
    (artists artists' : deque) (resp : ArtistResponse) :
  coherent artists → get_artist h req artists = Ok (resp, artists') →
  coherent artists'.
Proof.
  intros Hco. unfold get_artist.
  destruct (read_limit req); [simpl|done].
  destruct (ArtistStore.get_artist_by_hash h); [|by intros [= _ <-]].
  destruct (tracks_cached h artists) eqn:Hc.
  - rewrite (get_tracks_served _ _ Hc). simpl. by intros [= _ <-].
  - simpl. intros [= _ <-]. apply coherent_add_entry; auto.
Qed.

Lemma get_artist_albums_coherent (h : string) (req : Request)
    (artists artists' : deque) (resp : AlbumsResponse) :
  coherent artists → get_artist_albums h req artists = Ok (resp, artists') →
  coherent artists'.
Proof.
  intros Hco. unfold get_artist_albums.
  destruct (read_limit req); [simpl|done].
  destruct (ensure_albums h artists) as [artists1|] eqn:Hens; [simpl|done].
  assert (Hco1 : coherent artists1).
  { revert Hens. unfold ensure_albums.
    set (artists0 := if negb (albums_cached h artists) then _ else _).
    assert (Hco0 : coherent artists0).
    { subst artists0. destruct (albums_cached h artists); simpl; [done|].
      unfold add_albums_to_cache.
      destruct (length _ =? 0); simpl; [done|].
      apply coherent_add_entry; auto. }
    destruct (negb (default false (albums_fetched h artists0)));
      [|by intros [= <-]].
    unfold get_albums. destruct (entry_of h artists0); [simpl|done].
    intros [= <-]. by apply coherent_assign. }
  unfold respond_albums.
  destruct (get_albums_by_artisthash h artists1) as [all_albums index].
  destruct (Py.item artists1 index) as [indexed|]; [simpl|done].
  destruct (negb (CacheEntry.type_checked indexed)).
  - unfold process_album_type.
    destruct (entry_of h artists1); [simpl|done].
    rewrite classify_ok. simpl.
    destruct (ArtistStore.get_artist_by_hash h); [simpl|done].
    intros [= _ <-]. by apply coherent_assign.
  - simpl. rewrite classify_ok. simpl.
    destruct (ArtistStore.get_artist_by_hash h); [simpl|done].
    by intros [= _ <-].
Qed.

(** On such a cache the summary of a singles-only artist is every track
    the store has for the artist. *)
Corollary singles_only_artist_gets_store_tracks (h : string) (req : Request)
    (artists : deque) (artist : Artist.t) (limit : Z) :
  coherent artists →
  read_limit req = Ok limit →
  ArtistStore.get_artist_by_hash h = Some artist →
  AlbumStore.count_albums_by_artisthash h = 0%Z →
  length (TrackStore.get_tracks_by_artist h) < 10 →
  ∃ artist' artists',
    get_artist h req artists =
      Ok (ArtistFound artist' (TrackStore.get_tracks_by_artist h), artists').
Proof.
  intros Hco Hlimit Hartist Hcount Hlen.
  rewrite <-(coherent_served_tracks h artists Hco) in *.
  unfold get_artist. rewrite Hlimit, Hartist, Hcount. simpl.
  destruct (tracks_cached h artists) eqn:Hc.
  - rewrite (get_tracks_served _ _ Hc). simpl.
    destruct (Z.ltb_spec (Z.of_nat (length (served_tracks h artists))) 10);
      [|lia].
    rewrite slice_to_length by done. eauto.
  - unfold served_tracks in *. rewrite Hc in *. simpl.
    destruct (Z.ltb_spec
                (Z.of_nat (length (TrackStore.get_tracks_by_artist h))) 10);
      [|lia].
    rewrite slice_to_length by done. eauto.
Qed.
End Routes.

Section FourTracks.
Import ArtistsCache ArtistApi Reference Examples.
Local Existing Instances no_albums four_tracks artists_x collab.

Example stage_calls_raise_without_entry_witness :
  no_entry "x" [entry_y] ∧
  get_tracks "x" [entry_y] = Raise IndexError ∧
  get_albums "x" [entry_y] = Raise IndexError ∧
  process_album_type "x" [entry_y] = Raise IndexError.
Proof.
  assert (Hno : no_entry "x" [entry_y]) by (by repeat constructor).
  split; [exact Hno|].
  exact (stage_calls_raise_without_entry "x" [entry_y] Hno).
Defined.

(** C4 as stated fails: once a request for artist [y] has evicted the
    entry of artist [x], each stage-advancing call for [x] leaves with an
    [IndexError] that nothing catches. *)
Example stage_calls_after_eviction_raise :
  let artists := add_entry "y" ∅ [] (add_entry "x" {["abc"]} [] initial) in
  no_entry "x" artists ∧
  get_tracks "x" artists = Raise IndexError ∧
  get_albums "x" artists = Raise IndexError ∧
  process_album_type "x" artists = Raise IndexError.
Proof.
  simpl. split; [by repeat constructor|]. by vm_compute.
Qed.

Example singles_only_artist_gets_every_track_witness :
  let req := mkRequest None None in
  read_limit req = Ok 6%Z ∧
  ArtistStore.get_artist_by_hash "x" = Some artist_x ∧
  AlbumStore.count_albums_by_artisthash "x" = 0%Z ∧
  length (served_tracks "x" initial) < 10 ∧
  ∃ artist' artists',
    get_artist "x" req initial = Ok (ArtistFound artist' four, artists').
Proof.
  simpl. split; [done|]. split; [done|]. split; [done|].
  split; [vm_compute; lia|].
  change four with (served_tracks "x" initial).
  apply (singles_only_artist_gets_every_track
           "x" (mkRequest None None) initial artist_x 6%Z);
    [done..|vm_compute; lia].
Defined.
End FourTracks.

Section SevenAlbums.
Import ArtistsCache ArtistApi Reference Examples.
Local Existing Instances seven_albums seven_tracks artists_x collab.

Example all_flag_returns_whole_buckets_witness :
  let req := mkRequest None (Some "1") in
  ∃ resp artists',
    is_Some (arg_all req) ∧
    get_artist_albums "x" req initial = Ok (resp, artists') ∧
    albums (buckets resp) = seven ∧
    ∃ e b,
      entry_of "x" artists' = Ok e ∧
      classify "x" (CacheEntry.albums e) = Ok b ∧
      buckets resp =
        slice_buckets (Z.of_nat (length (CacheEntry.albums e))) b ∧
      buckets resp = b.
Proof.
  simpl. eexists _, _. split; [by eexists|].
  split; [vm_compute; reflexivity|]. split; [reflexivity|].
  apply (all_flag_returns_whole_buckets
           "x" (mkRequest None (Some "1")) initial);
    [by eexists|vm_compute; reflexivity].
Defined.

Example lookup_without_entry_reads_last_witness :
  no_entry "x" [entry_y] ∧
  get_albums_by_artisthash "x" [entry_y] = ([], -1)%Z ∧
  Py.item [entry_y] (-1) = Ok entry_y ∧
  respond_albums "x" 6 None [entry_y] = Raise IndexError.
Proof.
  assert (Hno : no_entry "x" [entry_y]) by (by repeat constructor).
  split; [exact Hno|].
  exact (lookup_without_entry_reads_last "x" 6%Z None [entry_y] Hno).
Defined.
End SevenAlbums.

(** ** [albumslib]: the index lookup *)

Section FindAlbum.
Import AlbumsLib.
Context `{!Helpers.ops}.

(** The loop needs no more fuel than the width of the interval. *)
Lemma find_album_loop_total (fuel : nat) (ALBUMS : list IndexedAlbum.t)
    (albumtitle artist : string) (left right : Z)
    (printed : list IndexedAlbum.t) :
  (right - left + 1 ≤ Z.of_nat fuel)%Z →
  is_Some (find_album_loop fuel ALBUMS albumtitle artist left right printed).
Proof.
  revert left right printed.
  induction fuel as [|fuel IH]; intros left right printed Hfuel; simpl.
  - destruct (Z.leb_spec left right); [lia|]. by eexists.
  - destruct (Z.leb_spec left right) as [Hle|]; [|by eexists].
    assert (left ≤ (left + right) `div` 2 ≤ right)%Z as Hmid.
    { split; [apply Z.div_le_lower_bound|apply Z.div_le_upper_bound]; lia. }
    repeat case_match; try (by eexists); apply IH; lia.
Qed.

Lemma find_album_total (ALBUMS : list IndexedAlbum.t)
    (albumtitle artist : string) :
  is_Some (find_album ALBUMS albumtitle artist).
Proof. apply find_album_loop_total. lia. Qed.

(** A malformed element under the probe is printed, and then read
    again by the comparison that follows the [try]: the lookup ends
    there with the exception. *)
Lemma find_album_loop_malformed (fuel : nat) (ALBUMS : list IndexedAlbum.t)
    (albumtitle artist : string) (left right : Z)
    (printed : list IndexedAlbum.t) (a : IndexedAlbum.t) :
  (left ≤ right)%Z →
  Py.item ALBUMS ((left + right) `div` 2) = Ok a →
  IndexedAlbum.hash a = None →
  find_album_loop (S fuel) ALBUMS albumtitle artist left right printed =
    Some (printed ++ [a], Raise AttributeError).
Proof.
  intros Hle Ha Hmal. simpl.
  destruct (Z.leb_spec left right); [|lia].
  unfold hash_at, IndexedAlbum.read_hash. rewrite Ha. simpl.
  by rewrite Hmal.
Qed.

Lemma item_in_range {A} (xs : list A) (i : Z) :
  (0 ≤ i < Z.of_nat (length xs))%Z → ∃ x, Py.item xs i = Ok x ∧ x ∈ xs.
Proof.
  intros Hi. unfold Py.item.
  destruct (Z.ltb_spec i 0); [lia|]. destruct (Z.ltb_spec i 0); [lia|].
  destruct (xs !! Z.to_nat i) as [x|] eqn:Hx.
  - exists x. split; [done|]. by eapply list_elem_of_lookup_2.
  - apply lookup_ge_None in Hx. lia.
Qed.

(** On an array whose elements all have a readable hash, the lookup
    prints nothing and returns an index or [None]. *)
Lemma find_album_loop_readable (fuel : nat) (ALBUMS : list IndexedAlbum.t)
    (albumtitle artist : string) (left right : Z)
    (printed : list IndexedAlbum.t) :
  Forall (λ a, is_Some (IndexedAlbum.hash a)) ALBUMS →
  (right - left + 1 ≤ Z.of_nat fuel)%Z →
  (0 ≤ left)%Z → (right < Z.of_nat (length ALBUMS))%Z →
  ∃ r, find_album_loop fuel ALBUMS albumtitle artist left right printed =
         Some (printed, Ok r).
Proof.
  intros Hall. revert left right.
  induction fuel as [|fuel IH]; intros left right Hfuel Hleft Hright; simpl.
  - destruct (Z.leb_spec left right); [lia|]. eauto.
  - destruct (Z.leb_spec left right) as [Hle|]; [|eauto].
    assert (left ≤ (left + right) `div` 2 ≤ right)%Z as Hmid.
    { split; [apply Z.div_le_lower_bound|apply Z.div_le_upper_bound]; lia. }
    destruct (item_in_range ALBUMS ((left + right) `div` 2)) as (a & Ha & Hin);
      [lia|].
    rewrite Forall_forall in Hall. destruct (Hall a Hin) as [h Hh].
    unfold hash_at, IndexedAlbum.read_hash. rewrite Ha. simpl. rewrite Hh.
    destruct (String.eqb h _); [eauto|].
    destruct (String.ltb h _); apply IH; lia.
Qed.

Lemma find_album_readable (ALBUMS : list IndexedAlbum.t)
    (albumtitle artist : string) :
  Forall (λ a, is_Some (IndexedAlbum.hash a)) ALBUMS →
  ∃ r, find_album ALBUMS albumtitle artist = Some ([], Ok r).
Proof. intros Hall. apply find_album_loop_readable; [done|lia..]. Qed.
End FindAlbum.

Section FindAlbumExamples.
Import AlbumsLib Examples.
Local Existing Instance helpers.

(** C5: on the one-element array whose element is malformed, the
    lookup prints the element and then leaves with [AttributeError]
    instead of returning an index or [None]. *)
Theorem find_album_aborts_on_malformed :
  find_album [malformed] "title" "artist" =
    Some ([malformed], Raise AttributeError).
Proof. reflexivity. Qed.
End FindAlbumExamples.

(** ** [albumslib]: the track grouper *)

Section GetAlbumTracks.
Import AlbumsLib.

Implicit Types (pool tracks : list DbTrack.t) (hash : string).

(** The stable sort moves no track past another of the same key. *)
Lemma insert_by_filter_key {A} (key : A → string) (k : string) (x : A)
    (xs : list A) :
  filter (λ y, key y = k) (Py.insert_by key x xs) =
    filter (λ y, key y = k) (x :: xs).
Proof.
  induction xs as [|y xs IH]; [done|]. simpl.
  destruct (String.leb (key x) (key y)) eqn:Hle; [done|].
  rewrite filter_cons, IH, !filter_cons.
  destruct (decide (key y = k)) as [Hy|]; [|done].
  destruct (decide (key x = k)) as [Hx|]; [|done].
  rewrite Hx, Hy in Hle. by destruct (String.leb_total k k); congruence.
Qed.

Lemma sort_by_filter_key {A} (key : A → string) (k : string) (xs : list A) :
  filter (λ y, key y = k) (Py.sort_by key xs) = filter (λ y, key y = k) xs.
Proof.
  induction xs as [|x xs IH]; [done|].
  simpl. by rewrite insert_by_filter_key, !filter_cons, IH.
Qed.

Lemma insert_by_Permutation {A} (key : A → string) (x : A) (xs : list A) :
  Py.insert_by key x xs ≡ₚ x :: xs.
Proof.
  induction xs as [|y xs IH]; [done|]. simpl.
  destruct (String.leb (key x) (key y)); [done|].
  by rewrite IH, Permutation_swap.
Qed.

Lemma sort_by_Permutation {A} (key : A → string) (xs : list A) :
  Py.sort_by key xs ≡ₚ xs.
Proof.
  induction xs as [|x xs IH]; [done|].
  simpl. by rewrite insert_by_Permutation, IH.
Qed.

(** What the modelled [find_track] finds. *)
Lemma find_track_None pool hash :
  TracksLib.find_track pool hash = None →
  Forall (λ t, DbTrack.albumhash t ≠ hash) pool.
Proof.
  induction pool as [|t pool IH]; [done|]. simpl.
  destruct (String.eqb_spec (DbTrack.albumhash t) hash); [done|].
  destruct (TracksLib.find_track pool hash); [done|]. intros _. auto.
Qed.

Lemma find_track_Some pool hash (index : Z) :
  TracksLib.find_track pool hash = Some index →
  ∃ pre t rest,
    pool = pre ++ t :: rest ∧
    Forall (λ t, DbTrack.albumhash t ≠ hash) pre ∧
    DbTrack.albumhash t = hash ∧
    index = Z.of_nat (length pre).
Proof.
  revert index. induction pool as [|t pool IH]; [done|]. simpl. intros index.
  destruct (String.eqb_spec (DbTrack.albumhash t) hash) as [Ht|Ht].
  - intros [= <-]. by exists [], t, pool.
  - destruct (TracksLib.find_track pool hash) as [i|]; [|done].
    intros [= <-].
    destruct (IH i eq_refl) as (pre & t' & rest & -> & Hpre & Ht' & ->).
    exists (t :: pre), t', rest.
    repeat split; [by constructor|done|simpl; lia].
Qed.

Lemma item_middle {A} (pre rest : list A) (x : A) :
  Py.item (pre ++ x :: rest) (Z.of_nat (length pre)) = Ok x.
Proof.
  unfold Py.item. destruct (Z.ltb_spec (Z.of_nat (length pre)) 0); [lia|].
  destruct (Z.ltb_spec (Z.of_nat (length pre)) 0); [lia|].
  by rewrite Nat2Z.id, list_lookup_middle.
Qed.

Lemma filter_all {A} (P : A → Prop) `{!∀ x, Decision (P x)} (l : list A) :
  Forall P l → filter P l = l.
Proof.
  induction 1 as [|x l Hx _ IH]; [done|].
  by rewrite filter_cons_True, IH.
Qed.

Lemma filter_none {A} (P : A → Prop) `{!∀ x, Decision (P x)} (l : list A) :
  Forall (λ x, ¬ P x) l → filter P l = [].
Proof.
  induction 1 as [|x l Hx _ IH]; [done|].
  by rewrite filter_cons_False.
Qed.

Lemma find_track_None_filter pool hash :
  TracksLib.find_track pool hash = None →
  filter (λ t, DbTrack.albumhash t = hash) pool = [] ∧
  filter (λ t, DbTrack.albumhash t ≠ hash) pool = pool.
Proof.
  intros Hnone%find_track_None. split.
  - apply filter_none. eapply Forall_impl; [exact Hnone|]. by intros t Ht.
  - by apply filter_all.
Qed.

Lemma find_track_Some_length pool hash (index : Z) :
  TracksLib.find_track pool hash = Some index →
  0 < length (filter (λ t, DbTrack.albumhash t = hash) pool).
Proof.
  intros (pre & t & rest & -> & _ & Ht & _)%find_track_Some.
  rewrite filter_app, filter_cons_True, length_app by done. simpl. lia.
Qed.

(** The loop takes the matching tracks out one by one, first first;
    one unit of fuel per matching track is enough. *)
Lemma find_tracks_loop_spec (fuel : nat) hash pool tracks :
  length (filter (λ t, DbTrack.albumhash t = hash) pool) ≤ fuel →
  find_tracks_loop fuel hash pool tracks =
    Some (Ok (tracks ++ filter (λ t, DbTrack.albumhash t = hash) pool,
              filter (λ t, DbTrack.albumhash t ≠ hash) pool)).
Proof.
  revert pool tracks. induction fuel as [|fuel IH]; intros pool tracks Hfuel.
  - destruct (TracksLib.find_track pool hash) as [index|] eqn:Hfind.
    + apply find_track_Some_length in Hfind. lia.
    + simpl. rewrite Hfind.
      destruct (find_track_None_filter _ _ Hfind) as [-> ->].
      by rewrite app_nil_r.
  - destruct (TracksLib.find_track pool hash) as [index|] eqn:Hfind.
    + apply find_track_Some in Hfind as Hsome.
      destruct Hsome as (pre & t & rest & -> & Hpre & Ht & ->).
      simpl. rewrite Hfind, item_middle, remove_skips_prefix.
      * rewrite filter_app, filter_cons_True, length_app in Hfuel by done.
        simpl in Hfuel. rewrite IH.
        -- rewrite !filter_app, filter_cons_True by done.
           rewrite (filter_cons_False _ t) by (by intros Hne).
           rewrite (filter_none _ pre); [by rewrite <-app_assoc|].
           eapply Forall_impl; [exact Hpre|]. by intros u Hu Heq.
        -- rewrite filter_app, length_app. lia.
      * eapply Forall_impl; [exact Hpre|]. intros u Hu ->. by apply Hu.
    + simpl. rewrite Hfind.
      destruct (find_track_None_filter _ _ Hfind) as [-> ->].
      by rewrite app_nil_r.
Qed.

Context `{!Helpers.ops}.

(** C6, amended: for every pool and every (title, artist),
    [get_album_tracks] returns exactly the tracks of the pool whose album
    identity is that of (title, artist), in pool order; when it returns,
    the pool holds its other tracks in sorted order followed by the
    extracted tracks, which [find_tracks] itself has put back: the pool
    has the tracks it had before. *)
Theorem get_album_tracks_extracts_and_restores (album artist : string)
    (DB_TRACKS : list DbTrack.t) :
  let hash := Helpers.create_album_hash album artist in
  ∃ tracks DB_TRACKS',
    get_album_tracks album artist DB_TRACKS = Some (Ok (tracks, DB_TRACKS')) ∧
    tracks = filter (λ t, DbTrack.albumhash t = hash) DB_TRACKS ∧
    DB_TRACKS' =
      filter (λ t, DbTrack.albumhash t ≠ hash)
        (Py.sort_by DbTrack.albumhash DB_TRACKS) ++ tracks ∧
    DB_TRACKS' ≡ₚ DB_TRACKS.
Proof.
  intros hash. unfold get_album_tracks, GetAlbumTracks_init, find_tracks.
  fold hash. rewrite find_tracks_loop_spec by apply length_filter.
  rewrite (sort_by_filter_key DbTrack.albumhash hash). simpl.
  eexists _, _. split; [done|]. split; [done|]. split; [done|].
  rewrite <-(sort_by_filter_key DbTrack.albumhash hash).
  rewrite <-(sort_by_Permutation DbTrack.albumhash DB_TRACKS) at 3.
  rewrite Permutation_app_comm. apply filter_app_complement.
Qed.
End GetAlbumTracks.

Section GetAlbumTracksExamples.
Import AlbumsLib Reference Examples.
Local Existing Instance helpers.

(** C6 as stated fails: after the call on a pool of one track of the
    album, that track is returned and is in the pool still. *)
Example get_album_tracks_leaves_tracks_in_pool :
  let t := db_track "song" "T" "A" in
  ∃ tracks DB_TRACKS',
    get_album_tracks "T" "A" [t] = Some (Ok (tracks, DB_TRACKS')) ∧
    tracks = [t] ∧
    ¬ pool_free_of (Helpers.create_album_hash "T" "A") DB_TRACKS'.
Proof.
  eexists _, _. split; [vm_compute; reflexivity|]. split; [done|].
  intros Hfree. apply Forall_cons in Hfree as [Hne _]. by apply Hne.
Qed.
End GetAlbumTracksExamples.

(** ** More of the cache and of the routes *)

Section CacheMore.
Import ArtistsCache ArtistApi Reference Laws.
Context `{!AlbumStore.ops, !TrackStore.ops, !ArtistStore.ops, !Collab.ops}.


Lemma advances_refl (h : string) (e : CacheEntry.t) : advances h e e.
Proof. by repeat split. Qed.

Lemma assign_advances (h : string) (f : CacheEntry.t → CacheEntry.t)
    (artists : deque) :
  (∀ e, CacheEntry.artisthash e = h → advances h e (f e)) →
  Forall2 (advances h) artists (assign h f artists).
Proof.
  intros Hf. induction artists as [|a artists IH]; [constructor|].
  simpl. destruct (is_for h a) eqn:Ha.
  - constructor; [by apply Hf, is_for_true|].
    apply Forall2_same_length_lookup_2; [done|].
    intros i x y Hx Hy. rewrite Hx in Hy. injection Hy as <-.
    apply advances_refl.
  - constructor; [apply advances_refl|done].
Qed.

(** X2: a stage-advancing call that returns keeps the deque entry by
    entry: no entry changes its artist, its tracks or its known album
    identities, no stage flag goes back from true to false, and the
    entries of other artists are left as they are. *)
Theorem stage_calls_advance (h : string) (artists artists' : deque) :
  get_albums h artists = Ok artists' ∨
  process_album_type h artists = Ok artists' →
  Forall2 (advances h) artists artists'.
Proof.
  unfold get_albums, process_album_type.
  destruct (entry_of h artists) as [entry|]; simpl; [|by intros [|]].
  intros [[= <-]|[= <-]]; apply assign_advances; intros e He;
    by repeat split.
Qed.

Lemma get_artist_not_found (h : string) (req : Request) (artists : deque) :
  ArtistStore.get_artist_by_hash h = None →
  get_artist h req artists =
    match read_limit req with
    | Ok _ => Ok (ArtistNotFound404, artists)
    | Raise e => Raise e
    end.
Proof.
  intros Hnone. unfold get_artist.
  destruct (read_limit req); simpl; [|done]. by rewrite Hnone.
Qed.

(** X3: for an artist identity the store does not know, the artist
    summary answers 404 and leaves the cache as it is; the limit is read
    before that, so a limit that [int] rejects ends the request with its
    exception instead. *)
Theorem get_artist_unknown (h : string) (req : Request) (artists : deque) :
  ArtistStore.get_artist_by_hash h = None →
  get_artist h req artists =
    match read_limit req with
    | Ok _ => Ok (ArtistNotFound404, artists)
    | Raise e => Raise e
    end.
Proof. apply get_artist_not_found. Qed.

Lemma slice_to_take {A} (xs : list A) (n : Z) :
  Py.slice_to xs n =
    if (n <? 0)%Z then take (length xs - Z.to_nat (- n)) xs
    else take (Z.to_nat n) xs.
Proof.
  unfold Py.slice_to. destruct (Z.ltb_spec n 0); [|done].
  f_equal. lia.
Qed.

(** What [get_artist] returns for a known artist. *)
Lemma get_artist_known (h : string) (req : Request) (artists : deque)
    (artist : Artist.t) (limit : Z) :
  read_limit req = Ok limit →
  ArtistStore.get_artist_by_hash h = Some artist →
  let tracks := served_tracks h artists in
  let tcount := Z.of_nat (length tracks) in
  let acount := AlbumStore.count_albums_by_artisthash h in
  ∃ artists',
    get_artist h req artists =
      Ok (ArtistFound
            (Artist.mk (Artist.artisthash artist) (Artist.name artist)
               tcount acount (total_duration tracks)
               (Collab.check_is_favorite h FavArtist))
            (Py.slice_to tracks
               (if (acount =? 0)%Z && (tcount <? 10)%Z then tcount
                else limit)),
          artists') ∧
    artists' =
      if tracks_cached h artists then artists
      else add_entry h
             (list_to_set (Track.albumhash <$> tracks)
              ∪ list_to_set
                  (Album.albumhash <$> AlbumStore.get_albums_by_artisthash h))
             tracks artists.
Proof.
  intros Hlimit Hartist. unfold get_artist. rewrite Hlimit, Hartist. simpl.
  destruct (tracks_cached h artists) eqn:Hc.
  - rewrite (get_tracks_served _ _ Hc). simpl. eauto.
  - unfold served_tracks. rewrite Hc. simpl. eauto.
Qed.

(** X4: outside the singles-only case, the summary of a known artist
    returns the first [limit] tracks for a limit that is not negative,
    and all but the last [-limit] tracks for a negative one. *)
Theorem get_artist_limit (h : string) (req : Request) (artists : deque)
    (artist : Artist.t) (limit : Z) :
  read_limit req = Ok limit →
  ArtistStore.get_artist_by_hash h = Some artist →
  AlbumStore.count_albums_by_artisthash h ≠ 0%Z ∨
  10 ≤ length (served_tracks h artists) →
  ∃ artist' artists',
    get_artist h req artists =
      Ok (ArtistFound artist'
            (if (limit <? 0)%Z
             then take (length (served_tracks h artists) - Z.to_nat (- limit))
                    (served_tracks h artists)
             else take (Z.to_nat limit) (served_tracks h artists)),
          artists').
Proof.
  intros Hlimit Hartist Hcase.
  destruct (get_artist_known h req artists artist limit Hlimit Hartist)
    as (artists' & -> & _).
  eexists _, artists'. rewrite <-slice_to_take. do 3 f_equal.
  destruct Hcase as [Hne|Hlen].
  - by destruct (Z.eqb_spec (AlbumStore.count_albums_by_artisthash h) 0).
  - destruct (Z.ltb_spec (Z.of_nat (length (served_tracks h artists))) 10);
      [lia|]. by rewrite andb_false_r.
Qed.

(** X5: whatever the limit, the counters of the artist summary are
    taken over all the tracks (their number and their summed duration)
    and over the store's album count, and the tracks returned are the
    leading ones of that list. *)
Theorem get_artist_counts_all_tracks (h : string) (req : Request)
    (artists : deque) (artist : Artist.t) (limit : Z) :
  read_limit req = Ok limit →
  ArtistStore.get_artist_by_hash h = Some artist →
  ∃ artist' tracks artists',
    get_artist h req artists = Ok (ArtistFound artist' tracks, artists') ∧
    tracks `prefix_of` served_tracks h artists ∧
    Artist.name artist' = Artist.name artist ∧
    Artist.trackcount artist' = Z.of_nat (length (served_tracks h artists)) ∧
    Artist.albumcount artist' = AlbumStore.count_albums_by_artisthash h ∧
    Artist.duration artist' = total_duration (served_tracks h artists).
Proof.
  intros Hlimit Hartist.
  destruct (get_artist_known h req artists artist limit Hlimit Hartist)
    as (artists' & -> & _).
  eexists _, _, _. split; [done|]. split; [|done].
  unfold Py.slice_to. destruct (_ <? 0)%Z; apply prefix_take.
Qed.

(** X6: a second summary request for the same artist, right after the
    first, gets the same response and leaves the cache as the first
    one left it. *)
Theorem get_artist_idempotent (h : string) (req : Request)
    (artists artists' : deque) (resp : ArtistResponse) :
  length artists ≤ 1 →
  get_artist h req artists = Ok (resp, artists') →
  get_artist h req artists' = Ok (resp, artists').
Proof.
  intros Hlen Hfirst.
  destruct (read_limit req) as [limit|] eqn:Hlimit;
    [|by unfold get_artist in Hfirst; rewrite Hlimit in Hfirst].
  destruct (ArtistStore.get_artist_by_hash h) as [artist|] eqn:Hartist.
  2:{ rewrite get_artist_not_found, Hlimit in Hfirst by done.
      injection Hfirst as <- <-. by rewrite get_artist_not_found, Hlimit. }
  destruct (get_artist_known h req artists artist limit Hlimit Hartist)
    as (a1 & Hget & Ha1).
  rewrite Hget in Hfirst. injection Hfirst as <- <-.
  destruct (tracks_cached h artists) eqn:Hc; subst a1; [done|].
  destruct (get_artist_known h req
              (add_entry h
                 (list_to_set (Track.albumhash <$> served_tracks h artists)
                  ∪ list_to_set
                      (Album.albumhash
                         <$> AlbumStore.get_albums_by_artisthash h))
                 (served_tracks h artists) artists)
              artist limit Hlimit Hartist) as (a2 & Hget2 & Ha2).
  rewrite Hget2. clear Hget Hget2.
  rewrite add_entry_bounded in * by done.
  assert (Hsame : served_tracks h
            [CacheEntry.init h
               (list_to_set (Track.albumhash <$> served_tracks h artists)
                ∪ list_to_set
                    (Album.albumhash
                       <$> AlbumStore.get_albums_by_artisthash h))
               (served_tracks h artists)]
          = served_tracks h artists).
  { unfold served_tracks at 1. simpl. rewrite entry_of_cons.
    unfold is_for. simpl. rewrite String.eqb_refl. simpl.
    destruct (served_tracks h artists) as [|t ts] eqn:Hs; simpl; [|done].
    unfold served_tracks in Hs. by rewrite Hc in Hs. }
  rewrite Hsame in *. do 2 f_equal. subst a2.
  by case_match.
Qed.
End CacheMore.

Section AlbumsRoute.
Import ArtistsCache ArtistApi Reference Laws.
Context `{!AlbumStore.ops, !TrackStore.ops, !ArtistStore.ops, !Collab.ops}.

Lemma ensure_albums_fetched (h : string) (artists artists' : deque) :
  ensure_albums h artists = Ok artists' →
  ∃ e, entry_of h artists' = Ok e ∧ CacheEntry.albums_fetched e = true.
Proof.
  unfold ensure_albums.
  set (artists0 := if negb (albums_cached h artists) then _ else _).
  destruct (albums_fetched h artists0) as [[]|] eqn:Hf; simpl.
  - intros [= <-]. destruct (albums_fetched_entry _ _ _ Hf) as [e He].
    exists e. split; [done|].
    rewrite (entry_albums_fetched _ _ _ He) in Hf. by injection Hf.
  - unfold get_albums. destruct (entry_of h artists0) as [e|] eqn:He; [|done].
    simpl. intros [= <-]. eexists. split; [by apply entry_of_assign|done].
  - unfold get_albums. destruct (entry_of h artists0) as [e|] eqn:He; [|done].
    simpl. intros [= <-]. eexists. split; [by apply entry_of_assign|done].
Qed.

(** What the artist-albums route has done when it returns. *)
Lemma get_artist_albums_inv (h : string) (req : Request)
    (artists artists' : deque) (resp : AlbumsResponse) :
  get_artist_albums h req artists = Ok (resp, artists') →
  ∃ limit artist e,
    read_limit req = Ok limit ∧
    ArtistStore.get_artist_by_hash h = Some artist ∧
    entry_of h artists' = Ok e ∧
    CacheEntry.albums_fetched e = true ∧
    CacheEntry.type_checked e = true ∧
    resp =
      mkAlbumsResponse (Artist.name artist)
        (slice_buckets
           (if arg_all req is Some _
            then Z.of_nat (length (CacheEntry.albums e)) else limit)
           (classify_spec h (CacheEntry.albums e))).
Proof.
  unfold get_artist_albums.
  destruct (read_limit req) as [limit|]; [simpl|done].
  destruct (ensure_albums h artists) as [artists1|] eqn:Hens; [simpl|done].
  destruct (ensure_albums_fetched _ _ _ Hens) as (e1 & He1 & Hf1).
  unfold respond_albums, get_albums_by_artisthash.
  destruct (get_albums_by_artisthash_from_index 0 _ _ _ He1) as (k & -> & Hk).
  rewrite Z.add_0_l, (item_nat _ _ _ Hk). simpl.
  assert (∃ artists2 e2,
    (if negb (CacheEntry.type_checked e1)
     then process_album_type h artists1 else Ok artists1) = Ok artists2 ∧
    entry_of h artists2 = Ok e2 ∧
    CacheEntry.albums_fetched e2 = true ∧ CacheEntry.type_checked e2 = true)
    as (artists2 & e2 & -> & He2 & Hf2 & Ht2).
  { destruct (CacheEntry.type_checked e1) eqn:Ht1; simpl;
      [by exists artists1, e1|].
    unfold process_album_type. rewrite He1. simpl.
    eexists _, _. split; [done|]. split; [by apply entry_of_assign|done]. }
  simpl. rewrite (get_albums_by_artisthash_from_entry _ _ _ _ He2).
  rewrite classify_ok. simpl.
  destruct (ArtistStore.get_artist_by_hash h) as [artist|]; [simpl|done].
  intros [= <- <-]. by exists limit, artist, e2.
Qed.

(** X7: when the artist-albums route returns, the entry of the artist
    has gone through both stages: its albums are fetched and their types
    are checked. *)
Theorem get_artist_albums_completes_stages (h : string) (req : Request)
    (artists artists' : deque) (resp : AlbumsResponse) :
  get_artist_albums h req artists = Ok (resp, artists') →
  ∃ e, entry_of h artists' = Ok e ∧
       CacheEntry.albums_fetched e = true ∧
       CacheEntry.type_checked e = true.
Proof.
  intros (limit & artist & e & _ & _ & He & Hf & Ht & _)%get_artist_albums_inv.
  by exists e.
Qed.

Lemma albums_cached_first (h : string) (artists : deque) (e : CacheEntry.t) :
  entry_of h artists = Ok e → CacheEntry.albums e ≠ [] →
  albums_cached h artists = true.
Proof.
  intros He Hne. induction artists as [|a artists IH]; [done|].
  rewrite entry_of_cons in He. simpl.
  destruct (is_for h a); simpl; [|by apply IH].
  injection He as ->. by destruct (CacheEntry.albums e).
Qed.

(** X8: when the route has returned with at least one album in the
    entry, the same request again gets the same response and changes
    nothing in the cache: no stage runs a second time. *)
Theorem get_artist_albums_idempotent (h : string) (req : Request)
    (artists artists' : deque) (resp : AlbumsResponse) (e : CacheEntry.t) :
  get_artist_albums h req artists = Ok (resp, artists') →
  entry_of h artists' = Ok e → CacheEntry.albums e ≠ [] →
  get_artist_albums h req artists' = Ok (resp, artists').
Proof.
  intros Hfirst He Hne.
  apply get_artist_albums_inv in Hfirst
    as (limit & artist & e' & Hlimit & Hartist & He' & Hf & Ht & ->).
  rewrite He in He'. injection He' as <-.
  unfold get_artist_albums. rewrite Hlimit. simpl.
  unfold ensure_albums. rewrite (albums_cached_first _ _ _ He Hne). simpl.
  rewrite (entry_albums_fetched _ _ _ He), Hf. simpl.
  unfold respond_albums, get_albums_by_artisthash.
  destruct (get_albums_by_artisthash_from_index 0 _ _ _ He) as (k & -> & Hk).
  rewrite Z.add_0_l, (item_nat _ _ _ Hk). simpl. rewrite Ht. simpl.
  rewrite (get_albums_by_artisthash_from_entry _ _ _ _ He).
  rewrite classify_ok. simpl. by rewrite Hartist.
Qed.

(** X9: an albums request for an artist whose albums are not cached
    installs a fresh entry without tracks: whatever tracks a summary
    request had cached for the artist are gone from the cache
    afterwards. *)
Theorem get_artist_albums_drops_cached_tracks (h : string) (req : Request)
    (artists artists' : deque) (resp : AlbumsResponse) :
  length artists ≤ 1 →
  albums_cached h artists = false →
  TrackStore.get_tracks_by_artist h ≠ [] →
  get_artist_albums h req artists = Ok (resp, artists') →
  tracks_cached h artists' = false ∧
  ∃ e, artists' = [e] ∧ CacheEntry.artisthash e = h ∧
       CacheEntry.tracks e = [].
Proof.
  intros Hlen Hcached Htracks. unfold get_artist_albums.
  destruct (read_limit req) as [limit|]; [simpl|done].
  unfold ensure_albums, add_albums_to_cache. rewrite Hcached. simpl.
  destruct (TrackStore.get_tracks_by_artist h) as [|t ts] eqn:Hts; [done|].
  simpl. rewrite add_entry_bounded by done.
  set (e0 := CacheEntry.init h _ []).
  assert (Hfor : ∀ e, CacheEntry.artisthash e = h → is_for h e = true)
    by (intros e; apply is_for_true).
  simpl. rewrite (Hfor e0) by done. simpl.
  unfold get_albums. rewrite entry_of_cons, (Hfor e0) by done. simpl.
  rewrite (Hfor e0) by done.
  set (e1 := CacheEntry.set_albums_fetched true _).
  unfold respond_albums, get_albums_by_artisthash. simpl.
  rewrite (Hfor e1) by done. simpl.
  unfold process_album_type. rewrite entry_of_cons, (Hfor e1) by done.
  simpl. rewrite (Hfor e1) by done.
  set (e2 := CacheEntry.set_type_checked true _).
  rewrite classify_ok. simpl.
  destruct (ArtistStore.get_artist_by_hash h); [simpl|done].
  intros [= _ <-]. simpl. rewrite (Hfor e2) by done. simpl.
  split; [done|]. by exists e2.
Qed.

(** X10: the two routes keep the cache as they fill it: at most one
    entry, whose tracks, when it has any, are the tracks the store has
    for its artist. *)
Theorem routes_keep_cache_coherent (h : string) (req : Request)
    (artists artists' : deque) :
  coherent artists →
  (∃ resp, get_artist h req artists = Ok (resp, artists')) ∨
  (∃ resp, get_artist_albums h req artists = Ok (resp, artists')) →
  coherent artists'.
Proof.
  intros Hco [[resp Hr]|[resp Hr]].
  - by eapply get_artist_coherent.
  - by eapply get_artist_albums_coherent.
Qed.

(** X11: without the [all] parameter and with a limit that is not
    negative, each bucket the route returns is made of the first [limit]
    albums of the full bucket, in the order of the entry's album list. *)
Theorem get_artist_albums_limit (h : string) (req : Request)
    (artists artists' : deque) (resp : AlbumsResponse) (limit : Z) :
  arg_all req = None → read_limit req = Ok limit → (0 ≤ limit)%Z →
  get_artist_albums h req artists = Ok (resp, artists') →
  ∃ e, entry_of h artists' = Ok e ∧
       let full := classify_spec h (CacheEntry.albums e) in
       let n := Z.to_nat limit in
       albums (buckets resp) = take n (albums full) ∧
       singles (buckets resp) = take n (singles full) ∧
       eps (buckets resp) = take n (eps full) ∧
       appearances (buckets resp) = take n (appearances full) ∧
       compilations (buckets resp) = take n (compilations full).
Proof.
  intros Hall Hlimit Hpos Hr.
  apply get_artist_albums_inv in Hr
    as (limit' & artist & e & Hlimit' & _ & He & _ & _ & ->).
  rewrite Hlimit in Hlimit'. injection Hlimit' as <-. rewrite Hall.
  exists e. split; [done|]. simpl. unfold Py.slice_to.
  by destruct (Z.ltb_spec limit 0); [lia|].
Qed.

(** X12: the artist-albums route has no answer for an artist identity
    the store does not know: every such request ends in an exception. *)
Theorem get_artist_albums_unknown (h : string) (req : Request)
    (artists : deque) :
  ArtistStore.get_artist_by_hash h = None →
  raises (get_artist_albums h req artists).
Proof.
  intros Hnone.
  destruct (get_artist_albums h req artists) as [[resp artists']|] eqn:Hr;
    [|done].
  apply get_artist_albums_inv in Hr as (_ & artist & _ & _ & Hsome & _).
  congruence.
Qed.

(** X13: an albums request for an artist with no track in the store
    and no entry in the cache ends with [IndexError]: nothing is added to
    the cache and [get_albums] finds no entry. *)
Theorem get_artist_albums_without_tracks (h : string) (req : Request)
    (artists : deque) (limit : Z) :
  read_limit req = Ok limit →
  no_entry h artists →
  TrackStore.get_tracks_by_artist h = [] →
  get_artist_albums h req artists = Raise IndexError.
Proof. apply get_artist_albums_trackless. Qed.

(** X14: the artist-albums route returns a response for every known
    artist that has a track in the store or an entry in the cache, when
    the limit can be read. *)
Theorem get_artist_albums_answers (h : string) (req : Request)
    (artists : deque) (limit : Z) (artist : Artist.t) :
  read_limit req = Ok limit →
  ArtistStore.get_artist_by_hash h = Some artist →
  TrackStore.get_tracks_by_artist h ≠ [] ∨ (∃ e, entry_of h artists = Ok e) →
  ∃ resp artists', get_artist_albums h req artists = Ok (resp, artists').
Proof. apply get_artist_albums_returns. Qed.

(** X15: after [add_entry] the cache answers for the artist added and
    for no other: its tracks are those given, they count as cached
    exactly when there are some, no album is cached or fetched yet, and
    every other artist has no entry. *)
Theorem add_entry_lookup (h : string) (hs : gset string) (ts : list Track.t)
    (artists : deque) :
  length artists ≤ 1 →
  let artists' := add_entry h hs ts artists in
  get_tracks h artists' = Ok ts ∧
  tracks_cached h artists' = bool_decide (ts ≠ []) ∧
  albums_cached h artists' = false ∧
  albums_fetched h artists' = Some false ∧
  get_albums_by_artisthash h artists' = ([], 0%Z) ∧
  ∀ h', h' ≠ h → no_entry h' artists'.
Proof.
  intros Hlen artists'. subst artists'. rewrite add_entry_bounded by done.
  unfold get_tracks, get_albums_by_artisthash. rewrite entry_of_cons. simpl.
  unfold is_for. simpl. rewrite String.eqb_refl. simpl.
  repeat split; try by destruct ts.
  intros h' Hne. by repeat constructor.
Qed.
End AlbumsRoute.

Section CacheMoreExamples.
Import ArtistsCache ArtistApi Reference Laws Examples.
Local Existing Instances seven_albums seven_tracks artists_x collab.

(** What the stores say of artists [x] (known, seven albums, two
    tracks) and [z] (unknown, no track). *)
Lemma plain_limit : read_limit plain_request = Ok 6%Z.
Proof. reflexivity. Qed.

Lemma limit_1 : read_limit (limit_request "1") = Ok 1%Z.
Proof. vm_compute. reflexivity. Qed.

Lemma limit_3 : read_limit (limit_request "3") = Ok 3%Z.
Proof. vm_compute. reflexivity. Qed.

Lemma x_known : ArtistStore.get_artist_by_hash "x" = Some artist_x.
Proof. reflexivity. Qed.

Lemma z_unknown : ArtistStore.get_artist_by_hash "z" = None.
Proof. reflexivity. Qed.

Lemma x_has_albums : AlbumStore.count_albums_by_artisthash "x" ≠ 0%Z.
Proof. intros H. vm_compute in H. discriminate H. Qed.

Lemma x_has_tracks : TrackStore.get_tracks_by_artist "x" ≠ [].
Proof. intros H. vm_compute in H. discriminate H. Qed.

Lemma z_has_no_tracks : TrackStore.get_tracks_by_artist "z" = [].
Proof. reflexivity. Qed.

Lemma no_entry_z : no_entry "z" [entry_y].
Proof. repeat constructor. intros H. vm_compute in H. discriminate H. Qed.


Example stage_calls_advance_witness :
  ∃ artists',
    get_albums "x" [entry_x; entry_y] = Ok artists' ∧
    Forall2 (advances "x") [entry_x; entry_y] artists'.
Proof.
  destruct (get_albums "x" [entry_x; entry_y]) as [artists'|] eqn:Hget;
    [|vm_compute in Hget; discriminate Hget].
  exists artists'. split; [reflexivity|].
  exact (stage_calls_advance "x" [entry_x; entry_y] artists'
           (or_introl Hget)).
Defined.

Example get_artist_unknown_witness :
  ArtistStore.get_artist_by_hash "z" = None ∧
  get_artist "z" plain_request [entry_y] =
    match read_limit plain_request with
    | Ok _ => Ok (ArtistNotFound404, [entry_y])
    | Raise e => Raise e
    end.
Proof.
  split; [exact z_unknown|].
  exact (get_artist_unknown "z" plain_request [entry_y] z_unknown).
Defined.

Example get_artist_limit_witness :
  read_limit (limit_request "1") = Ok 1%Z ∧
  ArtistStore.get_artist_by_hash "x" = Some artist_x ∧
  AlbumStore.count_albums_by_artisthash "x" ≠ 0%Z ∧
  ∃ artist' artists',
    get_artist "x" (limit_request "1") initial =
      Ok (ArtistFound artist'
            (if (1 <? 0)%Z
             then take (length (served_tracks "x" initial) - Z.to_nat (- 1))
                    (served_tracks "x" initial)
             else take (Z.to_nat 1) (served_tracks "x" initial)),
          artists').
Proof.
  split; [exact limit_1|]. split; [exact x_known|].
  split; [exact x_has_albums|].
  exact (get_artist_limit "x" (limit_request "1") initial artist_x 1%Z
           limit_1 x_known (or_introl x_has_albums)).
Defined.

Example get_artist_counts_all_tracks_witness :
  ∃ artist' tracks artists',
    get_artist "x" (limit_request "1") initial =
      Ok (ArtistFound artist' tracks, artists') ∧
    tracks `prefix_of` served_tracks "x" initial ∧
    Artist.name artist' = Artist.name artist_x ∧
    Artist.trackcount artist' = Z.of_nat (length (served_tracks "x" initial)) ∧
    Artist.albumcount artist' = AlbumStore.count_albums_by_artisthash "x" ∧
    Artist.duration artist' = total_duration (served_tracks "x" initial).
Proof.
  exact (get_artist_counts_all_tracks "x" (limit_request "1") initial
           artist_x 1%Z limit_1 x_known).
Defined.

Example get_artist_idempotent_witness :
  length initial ≤ 1 ∧
  ∃ resp artists',
    get_artist "x" plain_request initial = Ok (resp, artists') ∧
    get_artist "x" plain_request artists' = Ok (resp, artists').
Proof.
  assert (Hlen : length initial ≤ 1) by (simpl; lia).
  split; [exact Hlen|].
  destruct (get_artist "x" plain_request initial) as [[resp artists']|]
    eqn:Hget; [|vm_compute in Hget; discriminate Hget].
  exists resp, artists'. split; [reflexivity|].
  exact (get_artist_idempotent "x" plain_request initial artists' resp
           Hlen Hget).
Defined.

Example get_artist_albums_completes_stages_witness :
  ∃ resp artists',
    get_artist_albums "x" plain_request initial = Ok (resp, artists') ∧
    ∃ e, entry_of "x" artists' = Ok e ∧
         CacheEntry.albums_fetched e = true ∧
         CacheEntry.type_checked e = true.
Proof.
  destruct (get_artist_albums "x" plain_request initial)
    as [[resp artists']|] eqn:Hget; [|vm_compute in Hget; discriminate Hget].
  exists resp, artists'. split; [reflexivity|].
  exact (get_artist_albums_completes_stages "x" plain_request initial
           artists' resp Hget).
Defined.

Example get_artist_albums_idempotent_witness :
  ∃ resp artists' e,
    get_artist_albums "x" plain_request initial = Ok (resp, artists') ∧
    entry_of "x" artists' = Ok e ∧ CacheEntry.albums e ≠ [] ∧
    get_artist_albums "x" plain_request artists' = Ok (resp, artists').
Proof.
  destruct (get_artist_albums "x" plain_request initial)
    as [[resp artists']|] eqn:Hget; [|vm_compute in Hget; discriminate Hget].
  destruct (entry_of "x" artists') as [e|] eqn:He.
  2:{ exfalso. revert He. vm_compute in Hget. injection Hget as _ <-.
      vm_compute. discriminate. }
  assert (Hne : CacheEntry.albums e ≠ []).
  { revert He. vm_compute in Hget. injection Hget as _ <-.
    vm_compute. intros [= <-]. discriminate. }
  exists resp, artists', e. split; [reflexivity|]. split; [exact He|].
  split; [exact Hne|].
  exact (get_artist_albums_idempotent "x" plain_request initial artists' resp
           e Hget He Hne).
Defined.

Example get_artist_albums_drops_cached_tracks_witness :
  length cached_x ≤ 1 ∧
  albums_cached "x" cached_x = false ∧
  TrackStore.get_tracks_by_artist "x" ≠ [] ∧
  tracks_cached "x" cached_x = true ∧
  ∃ resp artists',
    get_artist_albums "x" plain_request cached_x = Ok (resp, artists') ∧
    tracks_cached "x" artists' = false ∧
    ∃ e, artists' = [e] ∧ CacheEntry.artisthash e = "x" ∧
         CacheEntry.tracks e = [].
Proof.
  assert (Hlen : length cached_x ≤ 1) by (simpl; lia).
  assert (Hcached : albums_cached "x" cached_x = false) by reflexivity.
  split; [exact Hlen|]. split; [exact Hcached|].
  split; [exact x_has_tracks|]. split; [reflexivity|].
  destruct (get_artist_albums "x" plain_request cached_x)
    as [[resp artists']|] eqn:Hget; [|vm_compute in Hget; discriminate Hget].
  exists resp, artists'. split; [reflexivity|].
  exact (get_artist_albums_drops_cached_tracks "x" plain_request cached_x
           artists' resp Hlen Hcached x_has_tracks Hget).
Defined.

Example routes_keep_cache_coherent_witness :
  coherent initial ∧
  ∃ resp artists',
    get_artist "x" plain_request initial = Ok (resp, artists') ∧
    coherent artists'.
Proof.
  split; [exact coherent_initial|].
  destruct (get_artist "x" plain_request initial) as [[resp artists']|]
    eqn:Hget; [|vm_compute in Hget; discriminate Hget].
  exists resp, artists'. split; [reflexivity|].
  exact (routes_keep_cache_coherent "x" plain_request initial artists'
           coherent_initial (or_introl (ex_intro _ resp Hget))).
Defined.

Example get_artist_albums_limit_witness :
  arg_all (limit_request "3") = None ∧
  read_limit (limit_request "3") = Ok 3%Z ∧
  ∃ resp artists' e,
    get_artist_albums "x" (limit_request "3") initial = Ok (resp, artists') ∧
    entry_of "x" artists' = Ok e ∧
    albums (buckets resp) =
      take (Z.to_nat 3) (albums (classify_spec "x" (CacheEntry.albums e))).
Proof.
  split; [reflexivity|]. split; [exact limit_3|].
  destruct (get_artist_albums "x" (limit_request "3") initial)
    as [[resp artists']|] eqn:Hget; [|vm_compute in Hget; discriminate Hget].
  destruct (get_artist_albums_limit "x" (limit_request "3") initial
              artists' resp 3%Z eq_refl limit_3 ltac:(lia) Hget)
    as (e & He & Halbums & _).
  exists resp, artists', e. split; [reflexivity|]. split; [exact He|].
  exact Halbums.
Defined.

Example get_artist_albums_unknown_witness :
  ArtistStore.get_artist_by_hash "z" = None ∧
  raises (get_artist_albums "z" plain_request initial).
Proof.
  split; [exact z_unknown|].
  exact (get_artist_albums_unknown "z" plain_request initial z_unknown).
Defined.

Example get_artist_albums_without_tracks_witness :
  read_limit plain_request = Ok 6%Z ∧ no_entry "z" [entry_y] ∧
  TrackStore.get_tracks_by_artist "z" = [] ∧
  get_artist_albums "z" plain_request [entry_y] = Raise IndexError.
Proof.
  split; [exact plain_limit|]. split; [exact no_entry_z|].
  split; [exact z_has_no_tracks|].
  exact (get_artist_albums_without_tracks "z" plain_request [entry_y] 6%Z
           plain_limit no_entry_z z_has_no_tracks).
Defined.

Example get_artist_albums_answers_witness :
  read_limit plain_request = Ok 6%Z ∧
  ArtistStore.get_artist_by_hash "x" = Some artist_x ∧
  TrackStore.get_tracks_by_artist "x" ≠ [] ∧
  ∃ resp artists',
    get_artist_albums "x" plain_request initial = Ok (resp, artists').
Proof.
  split; [exact plain_limit|]. split; [exact x_known|].
  split; [exact x_has_tracks|].
  exact (get_artist_albums_answers "x" plain_request initial 6%Z artist_x
           plain_limit x_known (or_introl x_has_tracks)).
Defined.

Example add_entry_lookup_witness :
  length [entry_y] ≤ 1 ∧
  get_tracks "x" (add_entry "x" ∅ four [entry_y]) = Ok four ∧
  tracks_cached "x" (add_entry "x" ∅ four [entry_y])
    = bool_decide (four ≠ []) ∧
  no_entry "y" (add_entry "x" ∅ four [entry_y]).
Proof.
  assert (Hlen : length [entry_y] ≤ 1) by (simpl; lia).
  split; [exact Hlen|].
  destruct (add_entry_lookup "x" ∅ four [entry_y] Hlen)
    as (Hget & Hcached & _ & _ & _ & Hothers).
  split; [exact Hget|]. split; [exact Hcached|].
  apply Hothers. discriminate.
Defined.
End CacheMoreExamples.

(** ** The order of strings *)

Section StringOrder.

Lemma ascii_compare_refl (c : ascii) : Ascii.compare c c = Eq.
Proof. apply N.compare_refl. Qed.

Lemma ascii_compare_lt_trans (a b c : ascii) :
  Ascii.compare a b = Lt → Ascii.compare b c = Lt → Ascii.compare a c = Lt.
Proof.
  unfold Ascii.compare. rewrite !N.compare_lt_iff. apply N.lt_trans.
Qed.

Lemma string_compare_refl (s : string) : String.compare s s = Eq.
Proof.
  induction s as [|c s IH]; [done|]. simpl. by rewrite ascii_compare_refl.
Qed.

Lemma string_compare_lt_trans (a b c : string) :
  String.compare a b = Lt → String.compare b c = Lt →
  String.compare a c = Lt.
Proof.
  revert b c. induction a as [|x a IH]; intros [|y b] [|z c]; simpl;
    try done.
  destruct (Ascii.compare x y) eqn:Hxy; try done.
  - apply Ascii.compare_eq_iff in Hxy as ->.
    destruct (Ascii.compare y z); try done. apply IH.
  - destruct (Ascii.compare y z) eqn:Hyz; try done.
    + apply Ascii.compare_eq_iff in Hyz as <-. by rewrite Hxy.
    + by rewrite (ascii_compare_lt_trans _ _ _ Hxy Hyz).
Qed.

Lemma string_leb_spec (a b : string) :
  String.leb a b = true ↔ a = b ∨ String.ltb a b = true.
Proof.
  unfold String.leb, String.ltb. split.
  - destruct (String.compare a b) eqn:Hc; try done; [|by right].
    apply String.compare_eq_iff in Hc. by left.
  - intros [->|Hlt]; [by rewrite string_compare_refl|].
    by destruct (String.compare a b).
Qed.

Lemma string_ltb_ne (a b : string) : String.ltb a b = true → a ≠ b.
Proof.
  unfold String.ltb. intros Hlt ->. by rewrite string_compare_refl in Hlt.
Qed.

Lemma string_ltb_trans (a b c : string) :
  String.ltb a b = true → String.ltb b c = true → String.ltb a c = true.
Proof.
  unfold String.ltb.
  destruct (String.compare a b) eqn:Hab; try done.
  destruct (String.compare b c) eqn:Hbc; try done.
  by rewrite (string_compare_lt_trans _ _ _ Hab Hbc).
Qed.

Lemma string_leb_ltb_trans (a b c : string) :
  String.leb a b = true → String.ltb b c = true → String.ltb a c = true.
Proof.
  intros [->|Hab]%string_leb_spec; [done|]. by apply string_ltb_trans.
Qed.

Lemma string_ltb_leb_trans (a b c : string) :
  String.ltb a b = true → String.leb b c = true → String.ltb a c = true.
Proof.
  intros Hab [<-|Hbc]%string_leb_spec; [done|]. by eapply string_ltb_trans.
Qed.

Lemma string_leb_trans (a b c : string) :
  String.leb a b = true → String.leb b c = true → String.leb a c = true.
Proof.
  intros Hab [<-|Hbc]%string_leb_spec; [done|].
  apply string_leb_spec. right. by eapply string_leb_ltb_trans.
Qed.

(** Neither smaller nor equal is greater. *)
Lemma string_ltb_flip (a b : string) :
  String.ltb a b = false → a ≠ b → String.ltb b a = true.
Proof.
  unfold String.ltb. rewrite (String.compare_antisym b a).
  destruct (String.compare a b) eqn:Hc; try done.
  by apply String.compare_eq_iff in Hc.
Qed.

Lemma string_leb_false (a b : string) :
  String.leb a b = false → String.ltb b a = true.
Proof.
  unfold String.leb, String.ltb. rewrite (String.compare_antisym b a).
  by destruct (String.compare a b).
Qed.

Lemma sorted_lookup_leb (hashes : list string) (i j : nat) (a b : string) :
  StronglySorted (λ h1 h2, String.leb h1 h2) hashes →
  i ≤ j → hashes !! i = Some a → hashes !! j = Some b →
  String.leb a b = true.
Proof.
  intros Hs. revert i j. induction Hs as [|h hashes Hs IH Hall];
    intros i j Hij Hi Hj; [done|].
  destruct i as [|i], j as [|j]; simpl in *; try lia.
  - injection Hi as <-. injection Hj as <-.
    apply string_leb_spec. by left.
  - injection Hi as <-. apply list_elem_of_lookup_2 in Hj.
    rewrite Forall_forall in Hall. apply Is_true_true, Hall, Hj.
  - apply (IH i j); [lia|done..].
Qed.
End StringOrder.

(** ** The index lookup on a sorted array *)

Section BinarySearch.
Import AlbumsLib Laws.
Context `{!Helpers.ops}.

Lemma hash_at_lookup (ALBUMS : list IndexedAlbum.t) (hashes : list string)
    (mid : Z) (h : string) :
  IndexedAlbum.hash <$> ALBUMS = Some <$> hashes →
  (0 ≤ mid)%Z → hashes !! Z.to_nat mid = Some h →
  hash_at ALBUMS mid = Ok h.
Proof.
  intros Heq Hmid Hh.
  assert (Hl : (IndexedAlbum.hash <$> ALBUMS) !! Z.to_nat mid = Some (Some h))
    by (by rewrite Heq, list_lookup_fmap, Hh).
  rewrite list_lookup_fmap in Hl.
  destruct (ALBUMS !! Z.to_nat mid) as [a|] eqn:Ha; [|done].
  injection Hl as Hl. unfold hash_at, Py.item.
  destruct (Z.ltb_spec mid 0); [lia|]. destruct (Z.ltb_spec mid 0); [lia|].
  rewrite Ha. simpl. unfold IndexedAlbum.read_hash. by rewrite Hl.
Qed.

(** The invariant of the loop: the target is at no index left of [left]
    and at none right of [right]. *)
Lemma find_album_loop_sorted (fuel : nat) (ALBUMS : list IndexedAlbum.t)
    (hashes : list string) (albumtitle artist : string) (left right : Z)
    (printed : list IndexedAlbum.t) :
  let target := Helpers.create_album_hash albumtitle artist in
  hash_sorted ALBUMS hashes →
  (right - left + 1 ≤ Z.of_nat fuel)%Z →
  (0 ≤ left)%Z → (right < Z.of_nat (length hashes))%Z →
  (∀ i h, (Z.of_nat i < left)%Z → hashes !! i = Some h → h ≠ target) →
  (∀ i h, (right < Z.of_nat i)%Z → hashes !! i = Some h → h ≠ target) →
  (∃ mid, find_album_loop fuel ALBUMS albumtitle artist left right printed =
            Some (printed, Ok (Some mid)) ∧
          (0 ≤ mid)%Z ∧ hashes !! Z.to_nat mid = Some target) ∨
  (find_album_loop fuel ALBUMS albumtitle artist left right printed =
     Some (printed, Ok None) ∧
   target ∉ hashes).
Proof.
  intros target [Heq Hsorted]. revert left right.
  induction fuel as [|fuel IH];
    intros left right Hfuel Hleft Hright Hbelow Habove.
  all: assert (Hnone : (right < left)%Z → target ∉ hashes).
  all: try (intros Hlt [i Hi]%list_elem_of_lookup_1;
            destruct (Z.lt_ge_cases (Z.of_nat i) left);
            [by eapply Hbelow|eapply Habove; [|done..]; lia]).
  - right. simpl. destruct (Z.leb_spec left right); [lia|]. auto.
  - simpl. destruct (Z.leb_spec left right) as [Hle|]; [|right; auto].
    assert (left ≤ (left + right) `div` 2 ≤ right)%Z as Hmid.
    { split; [apply Z.div_le_lower_bound|apply Z.div_le_upper_bound]; lia. }
    set (mid := ((left + right) `div` 2)%Z) in *.
    destruct (hashes !! Z.to_nat mid) as [h|] eqn:Hh;
      [|apply lookup_ge_None in Hh; lia].
    rewrite (hash_at_lookup ALBUMS hashes mid h Heq) by (try lia; done).
    fold target. destruct (String.eqb_spec h target) as [->|Hne].
    { left. exists mid. split; [done|]. split; [lia|done]. }
    destruct (String.ltb h target) eqn:Hlt.
    + apply IH; [lia..| |].
      * intros i h' Hi Hi'.
        destruct (Z.lt_ge_cases (Z.of_nat i) left); [by eapply Hbelow|].
        apply string_ltb_ne. eapply string_leb_ltb_trans; [|exact Hlt].
        eapply (sorted_lookup_leb hashes i (Z.to_nat mid)); [done|lia|done..].
      * intros i h' Hi. apply Habove. lia.
    + apply IH; [lia..| |].
      * intros i h' Hi. apply Hbelow. lia.
      * intros i h' Hi Hi'.
        destruct (Z.lt_ge_cases right (Z.of_nat i)); [by eapply Habove|].
        apply not_eq_sym, string_ltb_ne.
        eapply string_ltb_leb_trans; [by apply string_ltb_flip|].
        eapply (sorted_lookup_leb hashes (Z.to_nat mid) i); [done|lia|done..].
Qed.

Lemma find_album_on_sorted (ALBUMS : list IndexedAlbum.t)
    (hashes : list string) (albumtitle artist : string) :
  let target := Helpers.create_album_hash albumtitle artist in
  hash_sorted ALBUMS hashes →
  (∃ mid a,
     find_album ALBUMS albumtitle artist = Some ([], Ok (Some mid)) ∧
     Py.item ALBUMS mid = Ok a ∧ IndexedAlbum.hash a = Some target) ∨
  (find_album ALBUMS albumtitle artist = Some ([], Ok None) ∧
   ∀ a, a ∈ ALBUMS → IndexedAlbum.hash a ≠ Some target).
Proof.
  intros target Hs. pose proof Hs as [Heq _].
  assert (Hlen : length hashes = length ALBUMS).
  { apply (f_equal length) in Heq. by rewrite !length_fmap in Heq. }
  destruct (find_album_loop_sorted (length ALBUMS) ALBUMS hashes
              albumtitle artist 0 (Z.of_nat (length ALBUMS) - 1) [] Hs)
    as [(mid & Hfind & Hmid & Hh)|[Hfind Hno]]; [lia..| | | |].
  - intros i h Hi. lia.
  - intros i h Hi Hi'. apply lookup_lt_Some in Hi'. lia.
  - left. fold target in Hh.
    assert (Hl : (IndexedAlbum.hash <$> ALBUMS) !! Z.to_nat mid
                 = Some (Some target))
      by (by rewrite Heq, list_lookup_fmap, Hh).
    rewrite list_lookup_fmap in Hl.
    destruct (ALBUMS !! Z.to_nat mid) as [a|] eqn:Ha; [|done].
    injection Hl as Hl. exists mid, a. split; [done|]. split; [|done].
    rewrite <-(Z2Nat.id mid) by done. by apply item_nat.
  - right. split; [done|]. intros a Ha Hhash. apply Hno. fold target.
    assert (Hin : Some target ∈ IndexedAlbum.hash <$> ALBUMS).
    { rewrite <-Hhash. by apply list_elem_of_fmap_2. }
    rewrite Heq in Hin. apply list_elem_of_fmap in Hin as (h & [= ->] & Hin).
    done.
Qed.

(** X16: on an array sorted by hash, all hashes readable, [find_album]
    prints nothing and finds the hash exactly when it is there: it
    returns an index that holds the hash of (title, artist), or [None]
    when no album has that hash. *)
Theorem find_album_sorted (ALBUMS : list IndexedAlbum.t)
    (hashes : list string) (albumtitle artist : string) :
  let target := Helpers.create_album_hash albumtitle artist in
  hash_sorted ALBUMS hashes →
  (∃ mid a,
     find_album ALBUMS albumtitle artist = Some ([], Ok (Some mid)) ∧
     Py.item ALBUMS mid = Ok a ∧ IndexedAlbum.hash a = Some target) ∨
  (find_album ALBUMS albumtitle artist = Some ([], Ok None) ∧
   ∀ a, a ∈ ALBUMS → IndexedAlbum.hash a ≠ Some target).
Proof. apply find_album_on_sorted. Qed.

(** Whatever the order of the array, an index the loop returns holds
    the hash looked for. *)
Lemma find_album_loop_sound (fuel : nat) (ALBUMS : list IndexedAlbum.t)
    (albumtitle artist : string) (left right mid : Z)
    (printed printed' : list IndexedAlbum.t) :
  (0 ≤ left)%Z → (right < Z.of_nat (length ALBUMS))%Z →
  find_album_loop fuel ALBUMS albumtitle artist left right printed =
    Some (printed', Ok (Some mid)) →
  (0 ≤ mid < Z.of_nat (length ALBUMS))%Z ∧
  hash_at ALBUMS mid = Ok (Helpers.create_album_hash albumtitle artist).
Proof.
  revert left right printed.
  induction fuel as [|fuel IH]; intros left right printed Hleft Hright; simpl.
  - by destruct (Z.leb_spec left right).
  - destruct (Z.leb_spec left right) as [Hle|]; [|done].
    assert (left ≤ (left + right) `div` 2 ≤ right)%Z as Hmid.
    { split; [apply Z.div_le_lower_bound|apply Z.div_le_upper_bound]; lia. }
    destruct (hash_at ALBUMS ((left + right) `div` 2)) as [h|] eqn:Hh.
    + destruct (String.eqb_spec h
                  (Helpers.create_album_hash albumtitle artist)) as [->|].
      * intros [= <- <-]. split; [lia|done].
      * destruct (String.ltb h _); apply IH; lia.
    + by destruct (Py.item ALBUMS _).
Qed.

(** X17: on any array, sorted or not, an index [find_album] returns is
    within the array and holds an album whose hash is that of
    (title, artist). *)
Theorem find_album_sound (ALBUMS : list IndexedAlbum.t)
    (albumtitle artist : string) (mid : Z) (printed : list IndexedAlbum.t) :
  find_album ALBUMS albumtitle artist = Some (printed, Ok (Some mid)) →
  (0 ≤ mid < Z.of_nat (length ALBUMS))%Z ∧
  ∃ a, Py.item ALBUMS mid = Ok a ∧
       IndexedAlbum.hash a =
         Some (Helpers.create_album_hash albumtitle artist).
Proof.
  intros Hfind. apply find_album_loop_sound in Hfind as [Hmid Hh]; [|lia..].
  split; [done|]. unfold hash_at in Hh.
  destruct (Py.item ALBUMS mid) as [a|]; [|done]. exists a. split; [done|].
  simpl in Hh. unfold IndexedAlbum.read_hash in Hh.
  by destruct (IndexedAlbum.hash a); [injection Hh as ->|].
Qed.

(** X18: when the element in the middle of the array is malformed,
    [find_album] prints it and leaves with [AttributeError], whatever the
    other elements are. *)
Theorem find_album_malformed_middle (ALBUMS : list IndexedAlbum.t)
    (albumtitle artist : string) (a : IndexedAlbum.t) :
  Py.item ALBUMS ((Z.of_nat (length ALBUMS) - 1) `div` 2) = Ok a →
  IndexedAlbum.hash a = None →
  find_album ALBUMS albumtitle artist = Some ([a], Raise AttributeError).
Proof.
  intros Ha Hmal. unfold find_album.
  destruct ALBUMS as [|a0 ALBUMS]; [done|].
  change (length (a0 :: ALBUMS)) with (S (length ALBUMS)) at 1.
  apply (find_album_loop_malformed _ _ _ _ _ _ []);
    [simpl length; lia|done..].
Qed.
End BinarySearch.

(** ** Sorting, and [create_everything] *)

Section CreateEverything.
Import AlbumsLib Laws.

Lemma insert_by_sorted {A} (key : A → string) (x : A) (xs : list A) :
  StronglySorted (λ h1 h2, String.leb h1 h2) (key <$> xs) →
  StronglySorted (λ h1 h2, String.leb h1 h2) (key <$> Py.insert_by key x xs).
Proof.
  induction xs as [|y xs IH]; intros Hs; simpl.
  - repeat constructor.
  - apply StronglySorted_inv in Hs as [Hs Hall].
    destruct (String.leb (key x) (key y)) eqn:Hle; simpl.
    + constructor; [by constructor|]. constructor; [by rewrite Hle|].
      eapply Forall_impl; [exact Hall|]. intros h Hh.
      apply Is_true_true. eapply string_leb_trans; [exact Hle|].
      by apply Is_true_true.
    + constructor; [by apply IH|].
      rewrite (fmap_Permutation key _ _ (insert_by_Permutation key x xs)).
      constructor; [|done].
      apply Is_true_true, string_leb_spec. right.
      by apply string_leb_false.
Qed.

Lemma sort_by_sorted {A} (key : A → string) (xs : list A) :
  StronglySorted (λ h1 h2, String.leb h1 h2) (key <$> Py.sort_by key xs).
Proof.
  induction xs as [|x xs IH]; [constructor|]. by apply insert_by_sorted.
Qed.

Lemma mapM_read_hash_readable (albums : list IndexedAlbum.t) :
  Forall (λ a, is_Some (IndexedAlbum.hash a)) albums →
  ∃ keys, mapM IndexedAlbum.read_hash albums = Ok keys.
Proof.
  induction 1 as [|a albums [h Hh] _ [keys IH]]; [by eexists|].
  simpl. rewrite IH. unfold IndexedAlbum.read_hash. rewrite Hh. simpl.
  by eexists.
Qed.

Lemma mapM_read_hash_unreadable (albums : list IndexedAlbum.t) :
  Exists (λ a, IndexedAlbum.hash a = None) albums →
  mapM IndexedAlbum.read_hash albums = Raise AttributeError.
Proof.
  induction albums as [|a albums IH]; intros Hex;
    [by apply Exists_nil in Hex|].
  simpl. destruct (IndexedAlbum.hash a) as [h|] eqn:Hh.
  - apply Exists_cons in Hex as [Hex|Hex]; [congruence|].
    rewrite IH by done. unfold IndexedAlbum.read_hash. by rewrite Hh.
  - unfold IndexedAlbum.read_hash. by rewrite Hh.
Qed.

Context `{!Helpers.ops, !Instances.ops}.

Lemma get_all_albums_fold (rows : list Instances.db_album)
    (albums : list IndexedAlbum.t) (out : list console) :
  foldl (λ '(albums, out) album,
           (albums ++ [Instances.Album album], out ++ [BarNext]))
        (albums, out) rows =
    (albums ++ (Instances.Album <$> rows),
     out ++ replicate (length rows) BarNext).
Proof.
  revert albums out. induction rows as [|row rows IH]; intros albums out.
  - by rewrite !app_nil_r.
  - simpl. rewrite IH, <-!app_assoc. done.
Qed.

Lemma get_all_albums_eq :
  get_all_albums =
    (Instances.Album <$> Instances.get_all_albums,
     [Print "Getting all albums...";
      BarStart "Creating albums" (length Instances.get_all_albums)]
     ++ replicate (length Instances.get_all_albums) BarNext
     ++ [BarFinish]).
Proof.
  unfold get_all_albums. by rewrite get_all_albums_fold.
Qed.

Lemma sort_by_hash_readable (albums : list IndexedAlbum.t) :
  Forall (λ a, is_Some (IndexedAlbum.hash a)) albums →
  ∃ ALBUMS hashes,
    sort_by_hash albums = Ok ALBUMS ∧ ALBUMS ≡ₚ albums ∧
    hash_sorted ALBUMS hashes.
Proof.
  intros Hall. unfold sort_by_hash.
  destruct (mapM_read_hash_readable _ Hall) as [keys ->]. simpl.
  set (key := λ x, default EmptyString (IndexedAlbum.hash x)).
  exists (Py.sort_by key albums), (key <$> Py.sort_by key albums).
  split; [done|]. split; [apply sort_by_Permutation|].
  split; [|apply sort_by_sorted].
  rewrite <-list_fmap_compose. apply Forall_fmap_ext.
  rewrite (sort_by_Permutation key albums).
  eapply Forall_impl; [exact Hall|]. intros a [h Hh].
  unfold key. simpl. by rewrite Hh.
Qed.

Lemma create_everything_readable (api : Api) :
  Forall (λ a, is_Some (IndexedAlbum.hash a))
         (Instances.Album <$> Instances.get_all_albums) →
  ∃ api' out hashes,
    create_everything api = Ok (api', out) ∧
    ALBUMS api' ≡ₚ Instances.Album <$> Instances.get_all_albums ∧
    hash_sorted (ALBUMS api') hashes ∧
    TRACKS api' ≡ₚ Instances.create_all_tracks ∧
    StronglySorted (λ t1 t2, String.leb t1 t2)
      (ServerTrack.title <$> TRACKS api').
Proof.
  intros Hall. unfold create_everything.
  rewrite get_all_albums_eq.
  destruct (sort_by_hash_readable _ Hall) as (sorted & hashes & -> & Hp & Hs).
  simpl. eexists _, _, hashes. split; [done|]. simpl.
  split; [done|]. split; [done|].
  split; [apply sort_by_Permutation|apply sort_by_sorted].
Qed.

(** X19: when every album built from the rows has a readable hash,
    [create_everything] leaves in [api.ALBUMS] those albums in
    non-decreasing order of hash and in [api.TRACKS] the created tracks in
    non-decreasing order of title, whatever the two lists held before. *)
Theorem create_everything_sorts (api : Api) :
  Forall (λ a, is_Some (IndexedAlbum.hash a))
         (Instances.Album <$> Instances.get_all_albums) →
  ∃ api' out hashes,
    create_everything api = Ok (api', out) ∧
    ALBUMS api' ≡ₚ Instances.Album <$> Instances.get_all_albums ∧
    hash_sorted (ALBUMS api') hashes ∧
    TRACKS api' ≡ₚ Instances.create_all_tracks ∧
    StronglySorted (λ t1 t2, String.leb t1 t2)
      (ServerTrack.title <$> TRACKS api').
Proof. apply create_everything_readable. Qed.

(** X20: after [create_everything], [find_album] finds every album that
    was created: for a row whose album has the hash of (title, artist),
    the lookup returns an index of [api.ALBUMS] that holds that hash. *)
Theorem create_everything_then_find_album (api : Api)
    (row : Instances.db_album) (albumtitle artist : string) :
  Forall (λ a, is_Some (IndexedAlbum.hash a))
         (Instances.Album <$> Instances.get_all_albums) →
  row ∈ Instances.get_all_albums →
  IndexedAlbum.hash (Instances.Album row) =
    Some (Helpers.create_album_hash albumtitle artist) →
  ∃ api' out mid a,
    create_everything api = Ok (api', out) ∧
    find_album (ALBUMS api') albumtitle artist = Some ([], Ok (Some mid)) ∧
    Py.item (ALBUMS api') mid = Ok a ∧
    IndexedAlbum.hash a = Some (Helpers.create_album_hash albumtitle artist).
Proof.
  intros Hall Hrow Hhash.
  destruct (create_everything_readable api Hall)
    as (api' & out & hashes & Hce & Hp & Hs & _).
  exists api', out.
  destruct (find_album_on_sorted (ALBUMS api') hashes albumtitle artist Hs)
    as [(mid & a & Hfind & Ha & Hh)|[_ Hno]].
  - by exists mid, a.
  - exfalso. apply (Hno (Instances.Album row)); [|done].
    rewrite Hp. by apply list_elem_of_fmap_2.
Qed.

(** X21: when the album built from some row has no readable hash,
    [create_everything] leaves with [AttributeError] from the sort of
    [api.ALBUMS], before any track is created. *)
Theorem create_everything_unreadable (api : Api) :
  Exists (λ a, IndexedAlbum.hash a = None)
         (Instances.Album <$> Instances.get_all_albums) →
  create_everything api = Raise AttributeError.
Proof.
  intros Hex. unfold create_everything. rewrite get_all_albums_eq.
  unfold sort_by_hash. by rewrite mapM_read_hash_unreadable.
Qed.
End CreateEverything.

(** ** Durations, image paths and [create_album] *)

Section Images.
Import AlbumsLib Laws.
Context `{!Helpers.ops, !Random.ops, !TagLib.ops, !Builtins.ops}.

Lemma get_album_duration_from (album : list ServerTrack.t) (acc : Z) :
  foldl (λ album_duration track,
           (album_duration + ServerTrack.length track)%Z) acc album =
    (acc + get_album_duration album)%Z.
Proof.
  unfold get_album_duration. revert acc.
  induction album as [|t album IH]; intros acc; simpl; [lia|].
  rewrite (IH (acc + _)%Z), (IH (0 + _)%Z). lia.
Qed.

(** X22: the duration of an album is additive: that of two track lists
    put end to end is the sum of theirs, and an album without tracks has
    duration 0. *)
Theorem get_album_duration_app (album1 album2 : list ServerTrack.t) :
  get_album_duration [] = 0%Z ∧
  get_album_duration (album1 ++ album2) =
    (get_album_duration album1 + get_album_duration album2)%Z.
Proof.
  split; [done|]. unfold get_album_duration at 1.
  by rewrite foldl_app, !get_album_duration_from.
Qed.

Lemma use_defaults_default (s : Random.state) :
  Random.randint_in_range → default_path (use_defaults s).1.
Proof.
  intros Hrange. unfold use_defaults.
  specialize (Hrange 0%Z 20%Z s ltac:(lia)).
  destruct (Random.randint 0 20 s) as [n s']. by exists n.
Qed.

Lemma random_chars_spec (n : nat) (s : Random.state) :
  Random.choice_in_seq →
  String.length (random_chars n s).1 = n ∧
  ∀ i c, String.get i (random_chars n s).1 = Some c →
    ∃ j, String.get j choices = Some c.
Proof.
  intros Hchoice. revert s. induction n as [|n IH]; intros s; simpl.
  - split; [done|]. intros i c. by destruct i.
  - pose proof (Hchoice choices s ltac:(done)) as [j Hj].
    destruct (Random.choice choices s) as [c s'].
    specialize (IH s'). destruct (random_chars n s') as [rest s''].
    simpl in *. destruct IH as [Hlen Hin]. split; [by rewrite Hlen|].
    intros [|i] c'; simpl; [intros [= <-]; eauto|apply Hin].
Qed.

Lemma gen_random_path_random (s : Random.state) :
  Random.choice_in_seq → random_path (gen_random_path s).1.
Proof.
  intros Hchoice. unfold gen_random_path.
  pose proof (random_chars_spec 20 s Hchoice) as [Hlen Hin].
  destruct (random_chars 20 s) as [name s']. by exists name.
Qed.

(** X23: [get_album_image] asks [taglib.extract_thumb] for the tracks of
    the album in order, each with a fresh random path, and stops at the
    first one that has a thumbnail, whose path it returns; when none has
    (an album without tracks included), every track was asked and the
    result is a path of the defaults directory. *)
Theorem get_album_image_spec (album : list DbTrack.t) (w : World) :
  Random.randint_in_range → Random.choice_in_seq →
  ∃ calls,
    extracted (get_album_image album w).2 = extracted w ++ calls ∧
    calls.*1 = take (length calls) (DbTrack.filepath <$> album) ∧
    Forall random_path calls.*2 ∧
    ((Forall failed calls ∧ length calls = length album ∧
      default_path (get_album_image album w).1) ∨
     (∃ earlier filepath,
        calls = earlier ++ [(filepath, (get_album_image album w).1)] ∧
        Forall failed earlier ∧
        TagLib.extract_thumb filepath (get_album_image album w).1 = true)).
Proof.
  intros Hrange Hchoice. revert w.
  induction album as [|track album IH]; intros w; simpl.
  - exists []. rewrite app_nil_r.
    pose proof (use_defaults_default (rng w) Hrange) as Hdef.
    destruct (use_defaults (rng w)) as [path s]. simpl.
    split; [done|]. split; [done|]. split; [constructor|].
    left. by repeat split.
  - pose proof (gen_random_path_random (rng w) Hchoice) as Hpath.
    destruct (gen_random_path (rng w)) as [img_p s]. simpl in Hpath.
    destruct (TagLib.extract_thumb (DbTrack.filepath track) img_p) eqn:Hex.
    + exists [(DbTrack.filepath track, img_p)]. simpl.
      split; [done|]. split; [done|]. split; [by constructor|].
      right. exists [], (DbTrack.filepath track). by repeat split.
    + set (w' := mkWorld s _).
      destruct (IH w') as (calls & Hcalls & Hfst & Hsnd & Hcases).
      exists ((DbTrack.filepath track, img_p) :: calls).
      rewrite Hcalls. subst w'. simpl. rewrite <-app_assoc.
      split; [done|]. split; [f_equal; exact Hfst|].
      split; [constructor; [done|exact Hsnd]|].
      destruct Hcases as [(Hfail & Hlen & Hdef)|(earlier & f & -> & Hfail & Hok)].
      * left. split; [by constructor|]. split; [by rewrite Hlen|done].
      * right. exists ((DbTrack.filepath track, img_p) :: earlier), f.
        split; [done|]. split; [by constructor|done].
Qed.
End Images.

(** ** The track grouper, call after call *)

Section Grouper.
Import AlbumsLib Laws.
Context `{!Helpers.ops, !Random.ops, !TagLib.ops, !Builtins.ops}.

(** What [get_album_tracks] returns and leaves. *)
Lemma get_album_tracks_eq (album artist : string)
    (DB_TRACKS : list DbTrack.t) :
  get_album_tracks album artist DB_TRACKS =
    Some (Ok (filter (λ t, DbTrack.albumhash t =
                           Helpers.create_album_hash album artist) DB_TRACKS,
              filter (λ t, DbTrack.albumhash t ≠
                           Helpers.create_album_hash album artist)
                (Py.sort_by DbTrack.albumhash DB_TRACKS) ++
              filter (λ t, DbTrack.albumhash t =
                           Helpers.create_album_hash album artist)
                DB_TRACKS)).
Proof.
  unfold get_album_tracks, GetAlbumTracks_init, find_tracks.
  rewrite find_tracks_loop_spec by apply length_filter.
  by rewrite (sort_by_filter_key DbTrack.albumhash).
Qed.

(** X24: [get_album_tracks] keeps, for every album hash, the tracks of
    that album in the pool in the order they had: whatever was extracted
    before, a later extraction returns the tracks of its album in their
    original pool order. *)
Theorem get_album_tracks_keeps_album_order (album artist : string)
    (DB_TRACKS : list DbTrack.t) :
  ∃ tracks DB_TRACKS',
    get_album_tracks album artist DB_TRACKS = Some (Ok (tracks, DB_TRACKS')) ∧
    ∀ h, filter (λ t, DbTrack.albumhash t = h) DB_TRACKS' =
         filter (λ t, DbTrack.albumhash t = h) DB_TRACKS.
Proof.
  eexists _, _. split; [apply get_album_tracks_eq|].
  intros h. set (hash := Helpers.create_album_hash album artist).
  rewrite filter_app, !list_filter_filter.
  destruct (decide (h = hash)) as [->|Hne].
  - rewrite (filter_none (λ t, _ ∧ _)), app_nil_l.
    + apply list_filter_iff. tauto.
    + apply Forall_forall. tauto.
  - rewrite (filter_none (λ t, _ ∧ DbTrack.albumhash t = hash)), app_nil_r.
    + rewrite <-(sort_by_filter_key DbTrack.albumhash h DB_TRACKS).
      apply list_filter_iff. intros t. split; [tauto|].
      intros Ht. split; [done|congruence].
    + apply Forall_forall. intros t _ [Ht1 Ht2]. congruence.
Qed.

(** X25: when no track of the pool has the hash of the album and album
    artist of the given track, [create_album] leaves with [IndexError]
    from [album_tracks[0]]. *)
Theorem create_album_without_tracks (track : DbTrack.t)
    (DB_TRACKS : list DbTrack.t) (w : World) :
  pool_free_of_album track DB_TRACKS →
  create_album track DB_TRACKS w = Some (Raise IndexError).
Proof.
  intros Hfree. unfold create_album. rewrite get_album_tracks_eq.
  rewrite filter_none; [done|].
  eapply Forall_impl; [exact Hfree|]. by intros t Ht.
Qed.

(** X26: when the pool has tracks of that album, [create_album] returns
    a dictionary with the album and album artist of the given track, the
    date and the artist image of the first such track of the pool, and the
    image [get_album_image] finds for those tracks; the pool keeps its
    tracks. *)
Theorem create_album_from_first_track (track first : DbTrack.t)
    (rest DB_TRACKS : list DbTrack.t) (w : World) :
  let hash :=
    Helpers.create_album_hash (DbTrack.album track)
      (DbTrack.albumartist track) in
  filter (λ t, DbTrack.albumhash t = hash) DB_TRACKS = first :: rest →
  ∃ DB_TRACKS',
    create_album track DB_TRACKS w =
      Some (Ok (mkAlbumDict (DbTrack.album track) (DbTrack.albumartist track)
                  (DbTrack.date first)
                  (Builtins.quote_plus
                     (DbTrack.albumartist first +:+ ".webp"))
                  (get_album_image (first :: rest) w).1,
                DB_TRACKS', (get_album_image (first :: rest) w).2)) ∧
    DB_TRACKS' ≡ₚ DB_TRACKS.
Proof.
  intros hash Hfilter. subst hash. unfold create_album.
  rewrite get_album_tracks_eq, Hfilter, item_0_cons.
  change (Ok first ≫= ?f) with (f first). cbv beta.
  change (Ok first ≫= ?f) with (f first). cbv beta.
  destruct (get_album_image (first :: rest) w) as [image w'] eqn:Himg.
  eexists. split; [done|].
  rewrite <-Hfilter, <-(sort_by_filter_key DbTrack.albumhash).
  rewrite <-(sort_by_Permutation DbTrack.albumhash DB_TRACKS) at 3.
  rewrite Permutation_app_comm. apply filter_app_complement.
Qed.
End Grouper.

(** ** The search by name *)

Section Search.
Import AlbumsLib Laws.
Context `{!Builtins.ops}.

Lemma search_loop_filter (P : IndexedAlbum.t → bool)
    (ALBUMS acc : list IndexedAlbum.t) :
  foldl (λ acc album, if P album then acc ++ [album] else acc) acc ALBUMS =
    acc ++ filter (λ album, P album) ALBUMS.
Proof.
  revert acc. induction ALBUMS as [|a ALBUMS IH]; intros acc; simpl.
  - by rewrite app_nil_r.
  - rewrite IH, filter_cons. destruct (P a); simpl; [|done].
    by rewrite <-app_assoc.
Qed.

Lemma search_albums_by_name_eq (ALBUMS : list IndexedAlbum.t)
    (query : string) :
  search_albums_by_name ALBUMS query =
    filter (title_matches query) ALBUMS ++
    filter (artist_matches query) ALBUMS.
Proof.
  unfold search_albums_by_name.
  by rewrite (search_loop_filter
                (λ album, Py.str_in (Builtins.lower query)
                            (Builtins.lower (IndexedAlbum.title album)))),
             (search_loop_filter
                (λ album, Py.str_in (Builtins.lower query)
                            (Builtins.lower (IndexedAlbum.artist album)))).
Qed.

(** X27: [search_albums_by_name] returns the albums whose lower-cased
    title contains the lower-cased query, in array order, followed by
    those whose lower-cased artist does; an album is in the result exactly
    when it is in the array and one of the two matches. *)
Theorem search_albums_by_name_spec (ALBUMS : list IndexedAlbum.t)
    (query : string) :
  search_albums_by_name ALBUMS query =
    filter (title_matches query) ALBUMS ++
    filter (artist_matches query) ALBUMS ∧
  ∀ a, a ∈ search_albums_by_name ALBUMS query ↔
       a ∈ ALBUMS ∧ (title_matches query a ∨ artist_matches query a).
Proof.
  split; [apply search_albums_by_name_eq|].
  intros a. rewrite search_albums_by_name_eq, elem_of_app.
  rewrite !list_elem_of_filter. tauto.
Qed.

(** X28: an album of the array whose title and whose artist both match
    the query is returned twice. *)
Theorem search_albums_by_name_twice (ALBUMS : list IndexedAlbum.t)
    (query : string) (a : IndexedAlbum.t) :
  a ∈ ALBUMS → title_matches query a → artist_matches query a →
  ∃ l1 l2 l3, search_albums_by_name ALBUMS query = l1 ++ a :: l2 ++ a :: l3.
Proof.
  intros Hin Ht Ha. rewrite search_albums_by_name_eq.
  assert (H1 : a ∈ filter (title_matches query) ALBUMS)
    by (by apply list_elem_of_filter).
  assert (H2 : a ∈ filter (artist_matches query) ALBUMS)
    by (by apply list_elem_of_filter).
  apply list_elem_of_split in H1 as (l1 & l2 & ->).
  apply list_elem_of_split in H2 as (l3 & l4 & ->).
  exists l1, (l2 ++ l3), l4. by rewrite <-!app_assoc.
Qed.
End Search.

(** ** The statements on the concrete libraries *)

Section LibraryExamples.
Import AlbumsLib Laws Examples LibExamples.
Local Existing Instances helpers counter one_thumb plain_text library.

Lemma string_get_lt (s : string) (i : nat) :
  i < String.length s → ∃ c, String.get i s = Some c.
Proof.
  revert i. induction s as [|c s IH]; intros i Hi; simpl in *; [lia|].
  destruct i as [|i]; [by eexists|]. apply IH. lia.
Qed.

Lemma counter_randint_in_range : Random.randint_in_range.
Proof.
  intros a b s Hab. simpl.
  pose proof (Z.mod_pos_bound (Z.of_nat s) (b - a + 1)). lia.
Qed.

Lemma counter_choice_in_seq : Random.choice_in_seq.
Proof.
  intros seq s Hseq. simpl.
  assert (Hlen : String.length seq ≠ 0) by (by destruct seq).
  destruct (string_get_lt seq (s `mod` String.length seq)) as [c Hc].
  { by apply Nat.mod_upper_bound. }
  exists (s `mod` String.length seq). by rewrite Hc.
Qed.

Lemma sorted_albums_sorted :
  hash_sorted sorted_albums ["a/x"; "b/x"; "c/y"].
Proof. split; [done|]. repeat constructor. Qed.

Example find_album_sorted_witness :
  hash_sorted sorted_albums ["a/x"; "b/x"; "c/y"] ∧
  ((∃ mid a,
      find_album sorted_albums "c" "y" = Some ([], Ok (Some mid)) ∧
      Py.item sorted_albums mid = Ok a ∧ IndexedAlbum.hash a = Some "c/y") ∨
   (find_album sorted_albums "c" "y" = Some ([], Ok None) ∧
    ∀ a, a ∈ sorted_albums → IndexedAlbum.hash a ≠ Some "c/y")).
Proof.
  split; [apply sorted_albums_sorted|].
  exact (find_album_sorted sorted_albums ["a/x"; "b/x"; "c/y"] "c" "y"
           sorted_albums_sorted).
Defined.

Example find_album_sound_witness :
  find_album sorted_albums "c" "y" = Some ([], Ok (Some 2%Z)) ∧
  (0 ≤ 2 < Z.of_nat (length sorted_albums))%Z ∧
  ∃ a, Py.item sorted_albums 2 = Ok a ∧ IndexedAlbum.hash a = Some "c/y".
Proof.
  split; [reflexivity|].
  exact (find_album_sound sorted_albums "c" "y" 2%Z [] eq_refl).
Defined.

Example find_album_malformed_middle_witness :
  let ALBUMS := [indexed "a" "x"; malformed; indexed "c" "y"] in
  Py.item ALBUMS ((Z.of_nat (length ALBUMS) - 1) `div` 2) = Ok malformed ∧
  IndexedAlbum.hash malformed = None ∧
  find_album ALBUMS "c" "y" = Some ([malformed], Raise AttributeError).
Proof.
  simpl. split; [done|]. split; [done|].
  exact (find_album_malformed_middle
           [indexed "a" "x"; malformed; indexed "c" "y"] "c" "y" malformed
           eq_refl eq_refl).
Defined.

Lemma library_readable :
  Forall (λ a, is_Some (IndexedAlbum.hash a))
         (Instances.Album <$> Instances.get_all_albums).
Proof. repeat constructor; by eexists. Qed.

Example create_everything_sorts_witness :
  Forall (λ a, is_Some (IndexedAlbum.hash a))
         (Instances.Album <$> Instances.get_all_albums) ∧
  ∃ api' out hashes,
    create_everything (mkApi [malformed] []) = Ok (api', out) ∧
    ALBUMS api' ≡ₚ Instances.Album <$> Instances.get_all_albums ∧
    hash_sorted (ALBUMS api') hashes ∧
    TRACKS api' ≡ₚ Instances.create_all_tracks ∧
    StronglySorted (λ t1 t2, String.leb t1 t2)
      (ServerTrack.title <$> TRACKS api').
Proof.
  split; [apply library_readable|].
  exact (create_everything_sorts (mkApi [malformed] []) library_readable).
Defined.

Example create_everything_then_find_album_witness :
  ("c", "y") ∈ Instances.get_all_albums ∧
  ∃ api' out mid a,
    create_everything (mkApi [] []) = Ok (api', out) ∧
    find_album (ALBUMS api') "c" "y" = Some ([], Ok (Some mid)) ∧
    Py.item (ALBUMS api') mid = Ok a ∧
    IndexedAlbum.hash a = Some "c/y".
Proof.
  assert (Hrow : ("c", "y") ∈ Instances.get_all_albums)
    by (apply list_elem_of_further, list_elem_of_here).
  split; [exact Hrow|].
  exact (create_everything_then_find_album (mkApi [] []) ("c", "y") "c" "y"
           library_readable Hrow eq_refl).
Defined.

Example create_everything_unreadable_witness :
  Exists (λ a, IndexedAlbum.hash a = None)
         (@Instances.Album broken_library
            <$> @Instances.get_all_albums broken_library) ∧
  @create_everything broken_library (mkApi [] []) = Raise AttributeError.
Proof.
  assert (Hex : Exists (λ a, IndexedAlbum.hash a = None)
                  (@Instances.Album broken_library
                     <$> @Instances.get_all_albums broken_library))
    by (apply Exists_cons_tl, Exists_cons_hd; reflexivity).
  split; [exact Hex|].
  exact (@create_everything_unreadable broken_library (mkApi [] []) Hex).
Defined.

Example get_album_image_spec_witness :
  let album := [db_track "a" "T" "A"; db_track "b" "T" "A";
                db_track "c" "T" "A"] in
  Random.randint_in_range ∧ Random.choice_in_seq ∧
  (get_album_image album (mkWorld 0 [])).1 = "uvwxyz0123456789abcd.webp" ∧
  ∃ calls,
    extracted (get_album_image album (mkWorld 0 [])).2 = [] ++ calls ∧
    calls.*1 = take (length calls) (DbTrack.filepath <$> album) ∧
    Forall random_path calls.*2 ∧
    ((Forall failed calls ∧ length calls = length album ∧
      default_path (get_album_image album (mkWorld 0 [])).1) ∨
     (∃ earlier filepath,
        calls = earlier ++
                [(filepath, (get_album_image album (mkWorld 0 [])).1)] ∧
        Forall failed earlier ∧
        TagLib.extract_thumb filepath
          (get_album_image album (mkWorld 0 [])).1 = true)).
Proof.
  intros album.
  split; [apply counter_randint_in_range|].
  split; [apply counter_choice_in_seq|]. split; [vm_compute; reflexivity|].
  exact (get_album_image_spec album (mkWorld 0 [])
           counter_randint_in_range counter_choice_in_seq).
Defined.

Example create_album_without_tracks_witness :
  let track := db_track "z" "V" "A" in
  pool_free_of_album track pool ∧
  create_album track pool (mkWorld 0 []) = Some (Raise IndexError).
Proof.
  assert (Hfree : pool_free_of_album (db_track "z" "V" "A") pool)
    by (by repeat constructor).
  split; [exact Hfree|].
  exact (create_album_without_tracks (db_track "z" "V" "A") pool
           (mkWorld 0 []) Hfree).
Defined.

Example create_album_from_first_track_witness :
  let track := db_track "c" "T" "A" in
  let first := db_track "a" "T" "A" in
  filter (λ t, DbTrack.albumhash t = Helpers.create_album_hash "T" "A") pool
    = [first; track] ∧
  ∃ DB_TRACKS',
    create_album track pool (mkWorld 0 []) =
      Some (Ok (mkAlbumDict "T" "A" "2020" "A.webp"
                  (get_album_image [first; track] (mkWorld 0 [])).1,
                DB_TRACKS',
                (get_album_image [first; track] (mkWorld 0 [])).2)) ∧
    DB_TRACKS' ≡ₚ pool.
Proof.
  simpl. split; [reflexivity|].
  exact (create_album_from_first_track (db_track "c" "T" "A")
           (db_track "a" "T" "A") [db_track "c" "T" "A"] pool (mkWorld 0 [])
           eq_refl).
Defined.

Example search_albums_by_name_twice_witness :
  let ALBUMS := [indexed "blue" "x"; indexed "lux" "lux"] in
  indexed "lux" "lux" ∈ ALBUMS ∧
  title_matches "lu" (indexed "lux" "lux") ∧
  artist_matches "lu" (indexed "lux" "lux") ∧
  ∃ l1 l2 l3,
    search_albums_by_name ALBUMS "lu" =
      l1 ++ indexed "lux" "lux" :: l2 ++ indexed "lux" "lux" :: l3.
Proof.
  assert (Hin : indexed "lux" "lux"
                ∈ [indexed "blue" "x"; indexed "lux" "lux"])
    by (apply list_elem_of_further, list_elem_of_here).
  simpl. split; [exact Hin|]. split; [exact I|]. split; [exact I|].
  exact (search_albums_by_name_twice
           [indexed "blue" "x"; indexed "lux" "lux"] "lu"
           (indexed "lux" "lux") Hin I I).
Defined.
End LibraryExamples.
